(** * The CSS selector builder of [src/06-objects-tasks.js]

    A shallow embedding of the class [CSSSelectorBuilder] and of the facade
    object [cssSelectorBuilder].  Instances live in a store and are named by
    references, because [combine] calls [stringify] on the two selectors it
    is handed and thereby writes to objects other than [this].  A thrown
    exception keeps the store as it was at the [throw]. *)

From Stdlib Require Import ZArith String Ascii List Sorted Lia.
From stdpp Require Import base tactics option list strings.
Import ListNotations.

Local Open Scope string_scope.
Local Open Scope Z_scope.

(** ** Exceptions and the store-passing monad *)

(** [new Error(message)] as the class throws it; [TypeError] is what the
    engine raises on a property access through a value that is no object,
    which the model meets only at a reference outside the store. *)
Inductive exn : Type :=
| Error (message : String.string)
| TypeError.

Inductive outcome (A : Type) : Type :=
| Return (a : A)
| Throw (e : exn).
Arguments Return {A} a.
Arguments Throw {A} e.

Definition M (St A : Type) : Type := St -> St * outcome A.

Definition ret {St A} (a : A) : M St A := fun s => (s, Return a).

Definition throw {St A} (e : exn) : M St A := fun s => (s, Throw e).

Definition bind {St A B} (m : M St A) (k : A -> M St B) : M St B :=
  fun s =>
    match m s with
    | (s', Return a) => k a s'
    | (s', Throw e) => (s', Throw e)
    end.

Notation "x <- m ;; k" := (bind m (fun x => k))
  (at level 100, m at next level, right associativity).
Notation "m ;;; k" := (bind m (fun _ => k))
  (at level 100, right associativity).

(** The double quote, for tokens such as [href$=".png"]. *)
Definition dquote : String.string := String (ascii_of_nat 34) EmptyString.

Module CSSSelectorBuilder.

(** The own properties the constructor gives an instance. *)
Record instance : Type := Build {
  string : String.string;
  existsElement : bool;
  existsId : bool;
  existsPseudoElement : bool;
  weight : option Z
}.

(** References are positions in the store; [new] allocates at its end. *)
Abbreviation loc := nat.
Abbreviation heap := (list instance).
Abbreviation JS := (M heap).

Definition set_string (v : String.string) (o : instance) : instance :=
  Build v (existsElement o) (existsId o) (existsPseudoElement o) (weight o).
Definition set_existsElement (v : bool) (o : instance) : instance :=
  Build (string o) v (existsId o) (existsPseudoElement o) (weight o).
Definition set_existsId (v : bool) (o : instance) : instance :=
  Build (string o) (existsElement o) v (existsPseudoElement o) (weight o).
Definition set_existsPseudoElement (v : bool) (o : instance) : instance :=
  Build (string o) (existsElement o) (existsId o) v (weight o).
Definition set_weight (v : option Z) (o : instance) : instance :=
  Build (string o) (existsElement o) (existsId o) (existsPseudoElement o) v.

(** [this.f] *)
Definition get {A} (this : loc) (f : instance -> A) : JS A :=
  fun h =>
    match h !! this with
    | Some o => (h, Return (f o))
    | None => (h, Throw TypeError)
    end.

(** [this.f = v] *)
Definition put (this : loc) (upd : instance -> instance) : JS unit :=
  fun h =>
    match h !! this with
    | Some o => (<[this := upd o]> h, Return tt)
    | None => (h, Throw TypeError)
    end.

(** [constructor()], run by [new CSSSelectorBuilder()] on a new object. *)
Definition constructor : instance :=
  {| string := "";
     existsElement := false;
     existsId := false;
     existsPseudoElement := false;
     weight := None |}.

Definition new : JS loc :=
  fun h => ((h ++ [constructor])%list, Return (List.length h)).

Definition msgDuplicate : String.string :=
  "Element, id and pseudo-element should not occur more then one time inside the selector".

Definition msgOrder : String.string :=
  "Selector parts should be arranged in the following order: element, id, class, attribute, pseudo-class, pseudo-element".

(** [if (x)] on a variable that is [undefined] or holds a boolean. *)
Definition truthy (x : option bool) : bool :=
  match x with
  | Some b => b
  | None => false
  end.

(** The number a relational operator sees for [this.weight]: [null] is 0. *)
Definition toNumber (w : option Z) : Z :=
  match w with
  | Some n => n
  | None => 0
  end.

Definition checkIfDuplicate (this : loc) (selectorType : String.string) : JS unit :=
  let isDuplicate : option bool := None in
  isDuplicate <- (if String.eqb selectorType "element"
                  then b <- get this existsElement ;; ret (Some b)
                  else ret isDuplicate) ;;
  isDuplicate <- (if String.eqb selectorType "id"
                  then b <- get this existsId ;; ret (Some b)
                  else ret isDuplicate) ;;
  isDuplicate <- (if String.eqb selectorType "pseudo-element"
                  then b <- get this existsPseudoElement ;; ret (Some b)
                  else ret isDuplicate) ;;
  if truthy isDuplicate
  then throw (Error msgDuplicate)
  else ret tt.

Definition checkSelectorWeight (this : loc) (weight' : Z) : JS unit :=
  w <- get this weight ;;
  if weight' <? toNumber w
  then throw (Error msgOrder)
  else put this (set_weight (Some weight')).

Definition setValue (this : loc) (value selector : String.string) : JS unit :=
  s <- get this string ;;
  put this (set_string (s +:+ selector +:+ value)).

(** A parameter [selector = d] takes [d] when the caller leaves it out. *)
Definition element (this : loc) (value : String.string)
    (selector : option String.string) : JS loc :=
  let selector := default "" selector in
  checkIfDuplicate this "element" ;;;
  checkSelectorWeight this 1 ;;;
  put this (set_existsElement true) ;;;
  setValue this value selector ;;;
  ret this.

Definition id (this : loc) (value : String.string)
    (selector : option String.string) : JS loc :=
  let selector := default "#" selector in
  checkIfDuplicate this "id" ;;;
  checkSelectorWeight this 10 ;;;
  put this (set_existsId true) ;;;
  setValue this value selector ;;;
  ret this.

Definition class (this : loc) (value : String.string)
    (selector : option String.string) : JS loc :=
  let selector := default "." selector in
  checkSelectorWeight this 100 ;;;
  setValue this value selector ;;;
  ret this.

Definition attr (this : loc) (value : String.string)
    (selector : option String.string) : JS loc :=
  let selector := default "" selector in
  checkSelectorWeight this 1000 ;;;
  setValue this ("[" +:+ value +:+ "]") selector ;;;
  ret this.

Definition pseudoClass (this : loc) (value : String.string)
    (selector : option String.string) : JS loc :=
  let selector := default ":" selector in
  checkSelectorWeight this 10000 ;;;
  setValue this value selector ;;;
  ret this.

Definition pseudoElement (this : loc) (value : String.string)
    (selector : option String.string) : JS loc :=
  let selector := default "::" selector in
  checkIfDuplicate this "pseudo-element" ;;;
  checkSelectorWeight this 100000 ;;;
  put this (set_existsPseudoElement true) ;;;
  setValue this value selector ;;;
  ret this.

Definition stringify (this : loc) : JS String.string :=
  string' <- get this string ;;
  put this (set_string "") ;;;
  ret string'.

(** The template literal runs [selector1.stringify()] and then
    [selector2.stringify()] before [setValue] is entered. *)
Definition combine (this selector1 : loc) (combinator : String.string)
    (selector2 : loc) : JS loc :=
  s1 <- stringify selector1 ;;
  s2 <- stringify selector2 ;;
  setValue this (s1 +:+ " " +:+ combinator +:+ " " +:+ s2) "" ;;;
  ret this.

End CSSSelectorBuilder.

Module cssSelectorBuilder.

Import CSSSelectorBuilder.

Definition createObject : JS loc :=
  newObject <- new ;;
  ret newObject.

Definition element (value : String.string) : JS loc :=
  o <- createObject ;; CSSSelectorBuilder.element o value None.

Definition id (value : String.string) : JS loc :=
  o <- createObject ;; CSSSelectorBuilder.id o value None.

Definition class (value : String.string) : JS loc :=
  o <- createObject ;; CSSSelectorBuilder.class o value None.

Definition attr (value : String.string) : JS loc :=
  o <- createObject ;; CSSSelectorBuilder.attr o value None.

Definition pseudoClass (value : String.string) : JS loc :=
  o <- createObject ;; CSSSelectorBuilder.pseudoClass o value None.

Definition pseudoElement (value : String.string) : JS loc :=
  o <- createObject ;; CSSSelectorBuilder.pseudoElement o value None.

Definition combine (selector1 : loc) (combinator : String.string)
    (selector2 : loc) : JS loc :=
  o <- createObject ;; CSSSelectorBuilder.combine o selector1 combinator selector2.

End cssSelectorBuilder.

(** ** Vocabulary of the specification *)

Import CSSSelectorBuilder.

(** The two errors of the class, under the names the specification uses. *)
Abbreviation UniquenessError := (Error msgDuplicate).
Abbreviation OrderError := (Error msgOrder).

(** The six kinds of selector part, in the order the selector wants them. *)
Inductive category : Type :=
| Element | Id | Class | Attr | PseudoClass | PseudoElement.

(** The method of the class that appends a part of each kind. *)
Definition append (c : category)
  : loc -> String.string -> option String.string -> JS loc :=
  match c with
  | Element => CSSSelectorBuilder.element
  | Id => CSSSelectorBuilder.id
  | Class => CSSSelectorBuilder.class
  | Attr => CSSSelectorBuilder.attr
  | PseudoClass => CSSSelectorBuilder.pseudoClass
  | PseudoElement => CSSSelectorBuilder.pseudoElement
  end.
Arguments append : simpl never.

(** The weight each method hands to [checkSelectorWeight]. *)
Definition rank (c : category) : Z :=
  match c with
  | Element => 1
  | Id => 10
  | Class => 100
  | Attr => 1000
  | PseudoClass => 10000
  | PseudoElement => 100000
  end.

(** The kinds [checkIfDuplicate] guards, and the flag it reads for each. *)
Definition singleton (c : category) : bool :=
  match c with
  | Element | Id | PseudoElement => true
  | Class | Attr | PseudoClass => false
  end.

Definition isSet (c : category) (o : instance) : bool :=
  match c with
  | Element => existsElement o
  | Id => existsId o
  | PseudoElement => existsPseudoElement o
  | Class | Attr | PseudoClass => false
  end.

(** The default of the parameter [selector] of each method. *)
Definition defaultSelector (c : category) : String.string :=
  match c with
  | Element => ""
  | Id => "#"
  | Class => "."
  | Attr => ""
  | PseudoClass => ":"
  | PseudoElement => "::"
  end.

(** What a method hands to [setValue] as value. *)
Definition token (c : category) (value : String.string) : String.string :=
  match c with
  | Attr => "[" +:+ value +:+ "]"
  | _ => value
  end.

(** The instance a successful append leaves behind. *)
Definition appended (c : category) (value : String.string)
    (selector : option String.string) (o : instance) : instance :=
  {| string := string o +:+ default (defaultSelector c) selector +:+ token c value;
     existsElement := match c with Element => true | _ => existsElement o end;
     existsId := match c with Id => true | _ => existsId o end;
     existsPseudoElement :=
       match c with PseudoElement => true | _ => existsPseudoElement o end;
     weight := Some (rank c) |}.

(** The flag [checkIfDuplicate] ends up testing for a given tag;
    [None] is the [undefined] the variable keeps under any other tag. *)
Definition duplicateFlag (selectorType : String.string) (o : instance)
  : option bool :=
  if String.eqb selectorType "pseudo-element" then Some (existsPseudoElement o)
  else if String.eqb selectorType "id" then Some (existsId o)
  else if String.eqb selectorType "element" then Some (existsElement o)
  else None.

(** A chain [o.m1(v1).m2(v2)...] of appends with the default selectors, each
    method called on what the one before returned. *)
Fixpoint chain (this : loc) (parts : list (category * String.string)) : JS loc :=
  match parts with
  | [] => ret this
  | (c, v) :: parts' => o <- append c this v None ;; chain o parts'
  end.

(** The text of one part as the specification words it. *)
Definition fragment (p : category * String.string) : String.string :=
  match p with
  | (Element, v) => v
  | (Id, v) => "#" +:+ v
  | (Class, v) => "." +:+ v
  | (Attr, v) => "[" +:+ v +:+ "]"
  | (PseudoClass, v) => ":" +:+ v
  | (PseudoElement, v) => "::" +:+ v
  end.

Definition flat (l : list String.string) : String.string :=
  fold_right String.append "" l.

Definition category_eqb (c d : category) : bool :=
  match c, d with
  | Element, Element | Id, Id | Class, Class | Attr, Attr
  | PseudoClass, PseudoClass | PseudoElement, PseudoElement => true
  | _, _ => false
  end.

(** The parts of one kind, in the order they were appended. *)
Definition fragments (c : category) (parts : list (category * String.string))
  : String.string :=
  flat (map fragment (List.filter (fun p => category_eqb (fst p) c) parts)).

(** The selector text in the fixed order of the kinds. *)
Definition render (parts : list (category * String.string)) : String.string :=
  fragments Element parts +:+ fragments Id parts +:+ fragments Class parts +:+
  fragments Attr parts +:+ fragments PseudoClass parts +:+
  fragments PseudoElement parts.

Definition rank_le (p q : category * String.string) : Prop :=
  rank (fst p) <= rank (fst q).

(** Everything a caller can do to the store. *)
Inductive call : Type :=
| New
| Append (c : category) (this : loc) (value : String.string)
    (selector : option String.string)
| Combine (this selector1 : loc) (combinator : String.string) (selector2 : loc)
| Stringify (this : loc).

(** The store a call leaves, whether it returned or threw. *)
Definition exec (k : call) (h : heap) : heap :=
  match k with
  | New => fst (new h)
  | Append c this value selector => fst (append c this value selector h)
  | Combine this s1 combinator s2 => fst (combine this s1 combinator s2 h)
  | Stringify this => fst (stringify this h)
  end.

Definition run (ks : list call) (h : heap) : heap :=
  fold_left (fun h k => exec k h) ks h.

(** How an instance can differ after any number of calls: the stored weight
    has not gone down and no flag has been taken back. *)
Definition evolves (o o' : instance) : Prop :=
  toNumber (weight o) <= toNumber (weight o') /\
  forall c, isSet c o = true -> isSet c o' = true.

(** [grows h h']: every instance of [h] is still there in [h'], evolved. *)
Definition grows (h h' : heap) : Prop :=
  forall (x : loc) o, h !! x = Some o ->
    exists o', h' !! x = Some o' /\ evolves o o'.

(** Two stores used in the examples:
    [element('a').class('b')] and [class('a')] on an empty store. *)
Definition store_element_class : heap :=
  run [New; Append Element 0%nat "a" None; Append Class 0%nat "b" None] [].

Definition store_class : heap :=
  run [New; Append Class 0%nat "a" None] [].

(** The stores of the examples of [combine]: [element('div').id('main')] at
    reference 0 and [element('table').id('data')] at reference 1. *)
Definition store_div_table : heap :=
  run [New; Append Element 0%nat "div" None; Append Id 0%nat "main" None;
       New; Append Element 1%nat "table" None; Append Id 1%nat "data" None] [].

(** The same store with a third instance, [element('td')], at reference 2. *)
Definition store_div_table_td : heap :=
  run [New; Append Element 2%nat "td" None] store_div_table.

(** No singleton kind occurs twice among the parts. *)
Definition singletons_once (parts : list (category * String.string)) : Prop :=
  NoDup (List.filter singleton (map fst parts)).

(** The entry points of [cssSelectorBuilder] that build a selector. *)
Inductive entry : Type :=
| Start (c : category) (value : String.string)
| Join (selector1 : loc) (combinator : String.string) (selector2 : loc).

Definition facade (e : entry) : JS loc :=
  match e with
  | Start Element value => cssSelectorBuilder.element value
  | Start Id value => cssSelectorBuilder.id value
  | Start Class value => cssSelectorBuilder.class value
  | Start Attr value => cssSelectorBuilder.attr value
  | Start PseudoClass value => cssSelectorBuilder.pseudoClass value
  | Start PseudoElement value => cssSelectorBuilder.pseudoElement value
  | Join selector1 combinator selector2 =>
      cssSelectorBuilder.combine selector1 combinator selector2
  end.

(** The method of the class an entry point is named after, as it calls it. *)
Definition method (e : entry) (this : loc) : JS loc :=
  match e with
  | Start c value => append c this value None
  | Join selector1 combinator selector2 =>
      combine this selector1 combinator selector2
  end.

(** ** The rectangle of the first task *)

Module Shapes.

(** The object [Rectangle] returns; [num] stands for the numbers of the
    language and [mul] for their product. *)
Record rectangle (num : Type) : Type := {
  width : num;
  height : num
}.
Arguments width {num} r.
Arguments height {num} r.

Definition set_width {num} (v : num) (r : rectangle num) : rectangle num :=
  {| width := v; height := height r |}.
Definition set_height {num} (v : num) (r : rectangle num) : rectangle num :=
  {| width := width r; height := v |}.

(** [r.f] and [r.f = v] on the store of rectangles. *)
Definition read {num A} (r : nat) (f : rectangle num -> A)
  : M (list (rectangle num)) A :=
  fun s =>
    match s !! r with
    | Some o => (s, Return (f o))
    | None => (s, Throw TypeError)
    end.

Definition assign {num} (r : nat) (upd : rectangle num -> rectangle num)
  : M (list (rectangle num)) unit :=
  fun s =>
    match s !! r with
    | Some o => (<[r := upd o]> s, Return tt)
    | None => (s, Throw TypeError)
    end.

Definition Rectangle {num} (width height : num)
  : M (list (rectangle num)) nat :=
  fun s => ((s ++ [{| width := width; height := height |}])%list,
            Return (List.length s)).

Definition getArea {num} (mul : num -> num -> num) (this : nat)
  : M (list (rectangle num)) num :=
  w <- read this width ;;
  h <- read this height ;;
  ret (mul w h).

End Shapes.

(** ** Invariants of the stores a program can build *)

(** What holds of every instance of a store built from the empty one: the
    weight is [null] or one of the six the methods pass, a flag is set only
    if the weight has reached that of its kind, and the weight is that of a
    singleton kind only if the flag of the kind is set. *)
Definition wellFormed (o : instance) : Prop :=
  (weight o = None \/ exists c, weight o = Some (rank c)) /\
  (forall c, isSet c o = true -> rank c <= toNumber (weight o)) /\
  (forall c, singleton c = true -> weight o = Some (rank c) -> isSet c o = true).

Definition isNew (k : call) : bool :=
  match k with
  | New => true
  | _ => false
  end.

(** ** Equations of the methods *)

Lemma get_Some {A} (this : loc) (f : instance -> A) (h : heap) o :
  h !! this = Some o -> get this f h = (h, Return (f o)).
Proof. intros H. unfold get. now rewrite H. Qed.

Lemma put_Some (this : loc) upd (h : heap) o :
  h !! this = Some o -> put this upd h = (<[this := upd o]> h, Return tt).
Proof. intros H. unfold put. now rewrite H. Qed.

Lemma lookup_put (this : loc) (h : heap) o o' :
  h !! this = Some o -> <[this := o']> h !! this = Some o'.
Proof. intros H. apply list_lookup_insert_eq. eapply lookup_lt_Some, H. Qed.

Lemma checkIfDuplicate_eq (this : loc) selectorType (h : heap) o :
  h !! this = Some o ->
  checkIfDuplicate this selectorType h =
  (h, if truthy (duplicateFlag selectorType o)
      then Throw UniquenessError else Return tt).
Proof.
  intros H. unfold checkIfDuplicate, duplicateFlag, bind, ret, throw.
  destruct (String.eqb selectorType "element");
    destruct (String.eqb selectorType "id");
    destruct (String.eqb selectorType "pseudo-element");
    rewrite ?(get_Some _ _ _ _ H); cbn [truthy];
    repeat match goal with |- context [if ?b then _ else _] => destruct b end;
    reflexivity.
Qed.

Lemma checkSelectorWeight_eq (this : loc) w (h : heap) o :
  h !! this = Some o ->
  checkSelectorWeight this w h =
  if w <? toNumber (weight o) then (h, Throw OrderError)
  else (<[this := set_weight (Some w) o]> h, Return tt).
Proof.
  intros H. unfold checkSelectorWeight, bind, throw.
  rewrite (get_Some _ _ _ _ H).
  destruct (w <? toNumber (weight o)); [reflexivity|].
  apply put_Some, H.
Qed.

Lemma setValue_eq (this : loc) value selector (h : heap) o :
  h !! this = Some o ->
  setValue this value selector h =
  (<[this := set_string (string o +:+ selector +:+ value) o]> h, Return tt).
Proof.
  intros H. unfold setValue, bind.
  rewrite (get_Some _ _ _ _ H). apply put_Some, H.
Qed.

Lemma stringify_eq (this : loc) (h : heap) :
  stringify this h =
  match h !! this with
  | Some o => (<[this := set_string "" o]> h, Return (string o))
  | None => (h, Throw TypeError)
  end.
Proof.
  unfold stringify, bind, get. destruct (h !! this) as [o|] eqn:H; [|reflexivity].
  now rewrite (put_Some _ _ _ _ H).
Qed.

(** One statement of a method body, run on an instance that is in the store. *)
Ltac run_this H :=
  repeat first
    [ rewrite list_insert_insert_eq
    | rewrite (checkIfDuplicate_eq _ _ _ _ H)
    | rewrite (checkSelectorWeight_eq _ _ _ _ H)
    | rewrite (setValue_eq _ _ _ _ H)
    | rewrite (put_Some _ _ _ _ H)
    | erewrite checkSelectorWeight_eq by (eapply lookup_put, H)
    | erewrite setValue_eq by (eapply lookup_put, H)
    | erewrite put_Some by (eapply lookup_put, H)
    | progress cbn [truthy duplicateFlag String.eqb Ascii.eqb Bool.eqb
                    existsElement existsId existsPseudoElement weight
                    set_weight]
    | match goal with
      | |- context [?a <? ?b] => destruct (a <? b)
      end ].

Lemma append_eq (c : category) (this : loc) value selector (h : heap) :
  append c this value selector h =
  match h !! this with
  | None => (h, Throw TypeError)
  | Some o =>
      if isSet c o then (h, Throw UniquenessError)
      else if rank c <? toNumber (weight o) then (h, Throw OrderError)
      else (<[this := appended c value selector o]> h, Return this)
  end.
Proof.
  destruct (h !! this) as [o|] eqn:H.
  - destruct o as [s e i p w].
    destruct c; unfold append;
      cbn [isSet rank existsElement existsId existsPseudoElement
           CSSSelectorBuilder.weight];
      unfold element, id, class, attr, pseudoClass, pseudoElement, bind, ret;
      try destruct e; try destruct i; try destruct p;
      run_this H; try reflexivity.
  - destruct c; unfold append, element, id, class, attr, pseudoClass,
      pseudoElement, checkIfDuplicate, checkSelectorWeight, bind, ret, get;
      cbn [String.eqb Ascii.eqb Bool.eqb]; rewrite H; reflexivity.
Qed.

Lemma setValue_None (this : loc) value selector (h : heap) :
  h !! this = None -> setValue this value selector h = (h, Throw TypeError).
Proof. intros H. unfold setValue, bind, get. now rewrite H. Qed.

(** [combine] when the three references are in the store: the two selectors
    are drained in turn, then the receiver, read after both drains, gets the
    joined text appended. *)
Lemma combine_eq (this s1 s2 : loc) combinator (h : heap) o1 o2 o :
  h !! s1 = Some o1 ->
  <[s1 := set_string "" o1]> h !! s2 = Some o2 ->
  <[s2 := set_string "" o2]> (<[s1 := set_string "" o1]> h) !! this = Some o ->
  combine this s1 combinator s2 h =
  (<[this := set_string (string o +:+ "" +:+
                         (string o1 +:+ " " +:+ combinator +:+ " " +:+ string o2)) o]>
     (<[s2 := set_string "" o2]> (<[s1 := set_string "" o1]> h)),
   Return this).
Proof.
  intros H1 H2 H. unfold combine, bind, ret.
  rewrite stringify_eq, H1, stringify_eq, H2.
  now rewrite (setValue_eq _ _ _ _ _ H).
Qed.

Lemma createObject_eq (h : heap) :
  cssSelectorBuilder.createObject h = ((h ++ [constructor])%list, Return (List.length h)).
Proof. reflexivity. Qed.

Lemma lookup_new (h : heap) (x : instance) :
  (h ++ [x])%list !! List.length h = Some x.
Proof. now rewrite list_lookup_middle. Qed.

(** ** Frame and monotonicity of single calls *)

Lemma evolves_refl o : evolves o o.
Proof. split; [lia | auto]. Qed.

Lemma evolves_trans o1 o2 o3 : evolves o1 o2 -> evolves o2 o3 -> evolves o1 o3.
Proof. intros [H1 F1] [H2 F2]. split; [lia | auto]. Qed.

Lemma evolves_set_string s o : evolves o (set_string s o).
Proof. split; [cbn; lia | intros []; auto]. Qed.

Lemma evolves_appended c value selector o :
  (rank c <? toNumber (weight o)) = false ->
  evolves o (appended c value selector o).
Proof.
  intros Hw. apply Z.ltb_ge in Hw. split; [exact Hw|].
  intros d Hd. destruct c, d; cbn in *; auto.
Qed.

Lemma grows_refl h : grows h h.
Proof. intros x o H. exists o. auto using evolves_refl. Qed.

Lemma grows_trans h1 h2 h3 : grows h1 h2 -> grows h2 h3 -> grows h1 h3.
Proof.
  intros G1 G2 x o H. destruct (G1 x o H) as (o' & H' & E').
  destruct (G2 x o' H') as (o'' & H'' & E'').
  exists o''. split; [exact H'' | exact (evolves_trans _ _ _ E' E'')].
Qed.

Lemma grows_insert (h : heap) (i : loc) o o' :
  h !! i = Some o -> evolves o o' -> grows h (<[i := o']> h).
Proof.
  intros Hi E x ox Hx. destruct (decide (i = x)) as [-> | Hne].
  - rewrite Hx in Hi. injection Hi as ->. exists o'. split; [|exact E].
    apply list_lookup_insert_eq. eapply lookup_lt_Some, Hx.
  - exists ox. rewrite list_lookup_insert_ne by exact Hne.
    auto using evolves_refl.
Qed.

Lemma grows_app (h l : heap) : grows h (h ++ l)%list.
Proof.
  intros x o H. exists o. split; [|apply evolves_refl].
  now apply lookup_app_l_Some.
Qed.

Lemma grows_append c this value selector h :
  grows h (fst (append c this value selector h)).
Proof.
  rewrite append_eq. destruct (h !! this) as [o|] eqn:H; [|apply grows_refl].
  destruct (isSet c o) eqn:Hs; [apply grows_refl|].
  destruct (rank c <? toNumber (weight o)) eqn:Hw; [apply grows_refl|].
  eapply grows_insert; eauto using evolves_appended.
Qed.

Lemma grows_stringify this h : grows h (fst (stringify this h)).
Proof.
  rewrite stringify_eq. destruct (h !! this) as [o|] eqn:H; [|apply grows_refl].
  eapply grows_insert; eauto using evolves_set_string.
Qed.

Lemma grows_setValue this value selector h :
  grows h (fst (setValue this value selector h)).
Proof.
  destruct (h !! this) as [o|] eqn:H.
  - rewrite (setValue_eq _ _ _ _ _ H).
    eapply grows_insert; eauto using evolves_set_string.
  - rewrite (setValue_None _ _ _ _ H). apply grows_refl.
Qed.

Lemma grows_combine this s1 combinator s2 h :
  grows h (fst (combine this s1 combinator s2 h)).
Proof.
  unfold combine, bind.
  pose proof (grows_stringify s1 h) as G1.
  destruct (stringify s1 h) as [h1 [v1|e]]; [|exact G1].
  pose proof (grows_stringify s2 h1) as G2.
  destruct (stringify s2 h1) as [h2 [v2|e]]; [|exact (grows_trans _ _ _ G1 G2)].
  pose proof (grows_setValue this (v1 +:+ " " +:+ combinator +:+ " " +:+ v2) "" h2)
    as G3.
  destruct (setValue _ _ _ h2) as [h3 [[]|e]];
    exact (grows_trans _ _ _ G1 (grows_trans _ _ _ G2 G3)).
Qed.

Lemma grows_exec k h : grows h (exec k h).
Proof.
  destruct k; cbn [exec].
  - apply grows_app.
  - apply grows_append.
  - apply grows_combine.
  - apply grows_stringify.
Qed.

Lemma grows_run ks h : grows h (run ks h).
Proof.
  revert h. induction ks as [|k ks IH]; intros h; [apply grows_refl|].
  cbn. eapply grows_trans; [apply grows_exec | apply IH].
Qed.

(** ** What an append that returned, or threw, says about the store *)

Lemma append_Return c this value selector (h h' : heap) r :
  append c this value selector h = (h', Return r) ->
  exists o, h !! this = Some o /\ isSet c o = false /\
            toNumber (weight o) <= rank c /\
            h' = <[this := appended c value selector o]> h /\
            h' !! this = Some (appended c value selector o) /\ r = this.
Proof.
  rewrite append_eq. destruct (h !! this) as [o|] eqn:H; [|discriminate].
  destruct (isSet c o) eqn:Hs; [discriminate|].
  destruct (rank c <? toNumber (weight o)) eqn:Hw; [discriminate|].
  intros [= <- <-]. exists o. apply Z.ltb_ge in Hw.
  repeat split; auto. eapply lookup_put, H.
Qed.

Lemma append_Throw c this value selector (h h' : heap) e :
  append c this value selector h = (h', Throw e) ->
  h' = h /\
  (h !! this = None /\ e = TypeError \/
   exists o, h !! this = Some o /\
     (isSet c o = true /\ e = UniquenessError \/
      isSet c o = false /\ rank c < toNumber (weight o) /\ e = OrderError)).
Proof.
  rewrite append_eq. destruct (h !! this) as [o|] eqn:H.
  - destruct (isSet c o) eqn:Hs.
    + intros [= <- <-]. split; [reflexivity|]. right. exists o. auto.
    + destruct (rank c <? toNumber (weight o)) eqn:Hw; [|discriminate].
      intros [= <- <-]. apply Z.ltb_lt in Hw.
      split; [reflexivity|]. right. exists o. auto.
  - intros [= <- <-]. auto.
Qed.

Lemma append_lower c this value selector (h : heap) o :
  h !! this = Some o -> rank c < toNumber (weight o) ->
  append c this value selector h =
  (h, Throw (if isSet c o then UniquenessError else OrderError)).
Proof.
  intros H Hw. rewrite append_eq, H. destruct (isSet c o); [reflexivity|].
  apply Z.ltb_lt in Hw. now rewrite Hw.
Qed.

Lemma append_set c this value selector (h : heap) o :
  h !! this = Some o -> isSet c o = true ->
  append c this value selector h = (h, Throw UniquenessError).
Proof. intros H Hs. now rewrite append_eq, H, Hs. Qed.

Lemma isSet_appended c value selector o :
  singleton c = true -> isSet c (appended c value selector o) = true.
Proof. now destruct c. Qed.

Lemma append_frame c this value selector (h : heap) (x : loc) :
  x <> this -> fst (append c this value selector h) !! x = h !! x.
Proof.
  intros Hx. rewrite append_eq. destruct (h !! this) as [o|]; [|reflexivity].
  destruct (isSet c o); [reflexivity|].
  destruct (rank c <? toNumber (weight o)); [reflexivity|].
  cbn. apply list_lookup_insert_ne. congruence.
Qed.

Lemma rank_inj c d : rank c = rank d -> c = d.
Proof. destruct c, d; cbn; intros H; try reflexivity; discriminate. Qed.

(** ** [combine] *)

(** The instance found at [right] once [left] has been drained: the drained
    [left] itself when both references name one object. *)
Lemma lookup_drained (h : heap) (left right : loc) oL oR :
  h !! left = Some oL -> h !! right = Some oR ->
  <[left := set_string "" oL]> h !! right =
  Some (if decide (left = right) then set_string "" oL else oR).
Proof.
  intros HL HR. destruct (decide (left = right)) as [<- | Hne].
  - eapply lookup_put, HL.
  - now rewrite list_lookup_insert_ne.
Qed.

Lemma combine_distinct (this left right : loc) combinator (h : heap) oT oL oR oR' :
  h !! this = Some oT -> h !! left = Some oL -> h !! right = Some oR ->
  this <> left -> this <> right ->
  oR' = (if decide (left = right) then set_string "" oL else oR) ->
  combine this left combinator right h =
  (<[this := set_string
               (string oT +:+ string oL +:+ " " +:+ combinator +:+ " " +:+ string oR')
               oT]>
     (<[right := set_string "" oR']> (<[left := set_string "" oL]> h)),
   Return this).
Proof.
  intros HT HL HR HnL HnR ->.
  erewrite (combine_eq this left right combinator h oL _ oT).
  - reflexivity.
  - exact HL.
  - now apply lookup_drained.
  - rewrite !list_lookup_insert_ne by congruence. exact HT.
Qed.

Lemma facade_combine_eq (left right : loc) combinator (h : heap) oL oR oR' :
  h !! left = Some oL -> h !! right = Some oR ->
  oR' = (if decide (left = right) then set_string "" oL else oR) ->
  cssSelectorBuilder.combine left combinator right h =
  (<[List.length h :=
       set_string (string oL +:+ " " +:+ combinator +:+ " " +:+ string oR')
         constructor]>
     (<[right := set_string "" oR']>
        (<[left := set_string "" oL]> (h ++ [constructor])%list)),
   Return (List.length h)).
Proof.
  intros HL HR HR'. unfold cssSelectorBuilder.combine, bind.
  rewrite createObject_eq.
  apply lookup_lt_Some in HL as HlenL. apply lookup_lt_Some in HR as HlenR.
  apply (combine_distinct _ _ _ _ _ constructor oL oR);
    auto using lookup_new, lookup_app_l_Some; lia.
Qed.

(** [stringify] on an instance whose text is empty returns the empty
    string and leaves the store as it is. *)
Lemma stringify_drained (x : loc) (h : heap) o :
  h !! x = Some (set_string "" o) -> stringify x h = (h, Return "").
Proof.
  intros H. rewrite stringify_eq, H.
  change (set_string "" (set_string "" o)) with (set_string "" o).
  now rewrite (list_insert_id h x (set_string "" o) H).
Qed.

(** What [combine] leaves when its receiver is neither argument: one
    selector handed over twice is read once and found empty the second
    time. *)
Lemma combine_effect (this left right : loc) combinator (h : heap) oT oL oR :
  h !! this = Some oT -> h !! left = Some oL -> h !! right = Some oR ->
  this <> left -> this <> right ->
  exists h',
    combine this left combinator right h = (h', Return this) /\
    h' !! this =
      Some (set_string
              (string oT +:+ string oL +:+ " " +:+ combinator +:+ " " +:+
               (if decide (left = right) then "" else string oR)) oT) /\
    h' !! left = Some (set_string "" oL) /\
    h' !! right = Some (set_string "" oR).
Proof.
  intros HT HL HR HnL HnR.
  apply lookup_lt_Some in HT as LT. apply lookup_lt_Some in HL as LL.
  apply lookup_lt_Some in HR as LR.
  eexists. split.
  - exact (combine_distinct this left right combinator h oT oL oR _
             HT HL HR HnL HnR eq_refl).
  - split; [|split].
    + rewrite list_lookup_insert_eq by now rewrite !length_insert.
      destruct (decide (left = right)); reflexivity.
    + rewrite list_lookup_insert_ne by congruence.
      destruct (decide (left = right)) as [<- | Hne].
      * rewrite list_lookup_insert_eq by now rewrite length_insert.
        reflexivity.
      * rewrite list_lookup_insert_ne by congruence.
        now rewrite list_lookup_insert_eq.
    + rewrite list_lookup_insert_ne by congruence.
      rewrite list_lookup_insert_eq by now rewrite length_insert.
      destruct (decide (left = right)) as [<- | Hne]; [|reflexivity].
      rewrite HL in HR. now injection HR as <-.
Qed.

(** ** Chains of appends and the text they build *)

Lemma text_assoc (s1 s2 s3 : String.string) :
  (s1 +:+ s2) +:+ s3 = s1 +:+ s2 +:+ s3.
Proof.
  induction s1 as [|a s1 IH]; [reflexivity|].
  change (String a ((s1 +:+ s2) +:+ s3) = String a (s1 +:+ s2 +:+ s3)).
  now rewrite IH.
Qed.

Lemma text_empty_r (s : String.string) : s +:+ "" = s.
Proof.
  induction s as [|a s IH]; [reflexivity|].
  change (String a (s +:+ "") = String a s). now rewrite IH.
Qed.

Lemma text_empty_l (s : String.string) : "" +:+ s = s.
Proof. reflexivity. Qed.

Lemma appended_text c v o :
  string (appended c v None o) = string o +:+ fragment (c, v).
Proof. destruct c; reflexivity. Qed.

Lemma isSet_appended_inv c' c v s o :
  isSet c' (appended c v s o) = true ->
  c' = c /\ singleton c = true \/ isSet c' o = true.
Proof. destruct c, c'; cbn; auto. Qed.

Lemma chain_Return parts : forall (this : loc) (h h' : heap) r o,
  h !! this = Some o ->
  chain this parts h = (h', Return r) ->
  r = this /\
  exists o', h' !! this = Some o' /\
    string o' = string o +:+ flat (map fragment parts) /\
    Forall (fun p => toNumber (weight o) <= rank (fst p)) parts /\
    StronglySorted rank_le parts.
Proof.
  induction parts as [|[c v] rest IH]; intros this h h' r o H Hret.
  - injection Hret as <- <-. split; [reflexivity|]. exists o.
    cbn. rewrite text_empty_r. auto using SSorted_nil.
  - cbn [chain] in Hret. unfold bind in Hret.
    destruct (append c this v None h) as [h1 [r1|e]] eqn:Happ; [|discriminate].
    apply append_Return in Happ as (o0 & H0 & _ & Hw & _ & H1 & ->).
    rewrite H in H0. injection H0 as <-.
    destruct (IH this h1 h' r _ H1 Hret) as (-> & o' & H' & Htext & Hall & Hsort).
    split; [reflexivity|]. exists o'. split; [exact H'|].
    cbn [weight appended toNumber] in Hall.
    split; [|split].
    + rewrite Htext, appended_text, text_assoc. reflexivity.
    + constructor; [exact Hw|].
      eapply Forall_impl; [exact Hall|]. cbn. intros p Hp. lia.
    + constructor; [exact Hsort | exact Hall].
Qed.

Lemma chain_admissible parts : forall (this : loc) (h : heap) o,
  h !! this = Some o ->
  StronglySorted rank_le parts ->
  singletons_once parts ->
  Forall (fun p => toNumber (weight o) <= rank (fst p)) parts ->
  (forall c, isSet c o = true -> Forall (fun p => fst p <> c) parts) ->
  exists h', chain this parts h = (h', Return this).
Proof.
  induction parts as [|[c v] rest IH]; intros this h o H Hsort Honce Hw Hset.
  - eexists. reflexivity.
  - apply StronglySorted_inv in Hsort as [Hsort Hle].
    apply Forall_cons in Hw as [Hwc _]. cbn [fst] in Hwc.
    assert (Hs : isSet c o = false).
    { destruct (isSet c o) eqn:Hs; [|reflexivity].
      specialize (Hset c Hs). apply Forall_cons in Hset as [Hne _].
      now contradiction Hne. }
    cbn [chain]. unfold bind. rewrite append_eq, H, Hs.
    apply Z.ltb_ge in Hwc as Hwc'. rewrite Hwc'.
    apply (IH this _ (appended c v None o)).
    + eapply lookup_put, H.
    + exact Hsort.
    + unfold singletons_once in *. cbn [map fst List.filter] in Honce.
      destruct (singleton c); [|exact Honce].
      now apply NoDup_cons in Honce as [_ Honce].
    + exact Hle.
    + intros c' Hc'. apply isSet_appended_inv in Hc' as [[-> Hsing]|Hc'].
      * unfold singletons_once in Honce. cbn [map fst List.filter] in Honce.
        rewrite Hsing in Honce. apply NoDup_cons in Honce as [Hnotin _].
        apply Forall_forall. intros p Hp Heq. apply Hnotin.
        apply list_elem_of_In, filter_In. split; [|exact Hsing].
        rewrite <- Heq. apply in_map, list_elem_of_In, Hp.
      * specialize (Hset c' Hc'). now apply Forall_cons in Hset as [_ Hset].
Qed.

Lemma fragments_cons c p rest :
  fragments c (p :: rest) =
  if category_eqb (fst p) c then fragment p +:+ fragments c rest
  else fragments c rest.
Proof. unfold fragments. cbn. now destruct (category_eqb (fst p) c). Qed.

Lemma fragments_above c p rest :
  Forall (rank_le p) rest -> rank c < rank (fst p) -> fragments c rest = "".
Proof.
  intros Hall Hlt. induction Hall as [|q rest Hq _ IH]; [reflexivity|].
  rewrite fragments_cons, IH. unfold rank_le in Hq.
  destruct (category_eqb (fst q) c) eqn:E; [|reflexivity].
  destruct (fst q), c; try discriminate; lia.
Qed.

Lemma sorted_render parts :
  StronglySorted rank_le parts -> flat (map fragment parts) = render parts.
Proof.
  induction 1 as [|p rest _ IH Hall]; [reflexivity|].
  cbn [map flat fold_right]. fold (flat (map fragment rest)). rewrite IH.
  unfold render. rewrite !fragments_cons.
  destruct p as [[] v]; cbn [fst category_eqb];
    rewrite ?(fragments_above Element _ rest Hall) by reflexivity;
    rewrite ?(fragments_above Id _ rest Hall) by reflexivity;
    rewrite ?(fragments_above Class _ rest Hall) by reflexivity;
    rewrite ?(fragments_above Attr _ rest Hall) by reflexivity;
    rewrite ?(fragments_above PseudoClass _ rest Hall) by reflexivity;
    rewrite ?text_empty_l, ?text_assoc; reflexivity.
Qed.

(** ** The facade *)

Lemma facade_eq e (h : heap) :
  facade e h = method e (List.length h) (h ++ [constructor])%list.
Proof. destruct e as [[] v|s1 c s2]; reflexivity. Qed.

Lemma combine_Return this s1 combinator s2 (h h' : heap) r :
  combine this s1 combinator s2 h = (h', Return r) -> r = this.
Proof.
  unfold combine, bind, ret.
  destruct (stringify s1 h) as [h1 [v1|e]]; [|discriminate].
  destruct (stringify s2 h1) as [h2 [v2|e]]; [|discriminate].
  destruct (setValue _ _ _ h2) as [h3 [[]|e]]; [|discriminate].
  now intros [= _ <-].
Qed.

Lemma method_Return e (this : loc) (h h' : heap) r :
  method e this h = (h', Return r) -> r = this.
Proof.
  destruct e as [c v|s1 c s2]; cbn [method].
  - intros Hret. now apply append_Return in Hret as (o & _ & _ & _ & _ & _ & ->).
  - apply combine_Return.
Qed.

Lemma grows_method e (this : loc) (h : heap) : grows h (fst (method e this h)).
Proof.
  destruct e; [apply grows_append | apply grows_combine].
Qed.

Lemma facade_Return e (h h' : heap) r :
  facade e h = (h', Return r) -> r = List.length h /\ is_Some (h' !! r).
Proof.
  rewrite facade_eq. intros Hret.
  apply method_Return in Hret as Hr. subst r. split; [reflexivity|].
  destruct (grows_method e (List.length h) (h ++ [constructor])%list
              (List.length h) constructor (lookup_new h _)) as (o' & H' & _).
  rewrite Hret in H'. eauto.
Qed.

(** ** The examples of the source, run on the empty store *)

Example example_id_class_class :
  snd ((o <- cssSelectorBuilder.id "main" ;;
        o <- class o "container" None ;;
        o <- class o "editable" None ;;
        stringify o) []) = Return "#main.container.editable".
Proof. reflexivity. Qed.

Example example_combine :
  snd ((l <- (o <- cssSelectorBuilder.element "div" ;; id o "main" None) ;;
        r <- (o <- cssSelectorBuilder.element "table" ;; id o "data" None) ;;
        o <- cssSelectorBuilder.combine l "+" r ;;
        stringify o) []) = Return "div#main + table#data".
Proof. reflexivity. Qed.

Example example_combine_nested :
  snd ((a <- (o <- cssSelectorBuilder.element "div" ;;
              o <- id o "main" None ;;
              o <- class o "container" None ;;
              class o "draggable" None) ;;
        b <- (o <- cssSelectorBuilder.element "table" ;; id o "data" None) ;;
        c <- (o <- cssSelectorBuilder.element "tr" ;;
              pseudoClass o "nth-of-type(even)" None) ;;
        d <- (o <- cssSelectorBuilder.element "td" ;;
              pseudoClass o "nth-of-type(even)" None) ;;
        cd <- cssSelectorBuilder.combine c " " d ;;
        bcd <- cssSelectorBuilder.combine b "~" cd ;;
        o <- cssSelectorBuilder.combine a "+" bcd ;;
        stringify o) []) =
  Return "div#main.container.draggable + table#data ~ tr:nth-of-type(even)   td:nth-of-type(even)".
Proof. reflexivity. Qed.

(** The method [combine] called on its own first argument: the receiver is
    drained like any argument and then takes the joined text, so it is the
    one instance that is not left empty. *)
Example example_combine_on_itself :
  snd ((o <- combine 0%nat 0%nat "+" 1%nat ;; stringify o) store_div_table) =
  Return "div#main + table#data".
Proof. reflexivity. Qed.

(** One selector handed to [combine] twice is read once: the second
    [stringify] finds it drained. *)
Example example_combine_same_twice :
  snd ((o <- cssSelectorBuilder.combine 0%nat "+" 0%nat ;; stringify o)
         store_div_table) = Return "div#main + ".
Proof. reflexivity. Qed.

(** ** The claims *)

(** C1: a chain of appends on a new instance that returns has its parts in
    non-decreasing order of weight, and [stringify] then returns the parts
    kind by kind in the fixed order, element verbatim, id after '#', each
    class after '.', each attribute in '[' ']', each pseudo-class after ':',
    the pseudo-element after '::', those of one kind in the order they were
    appended.  Every chain in that order with each singleton kind at most
    once does return.  [element('a').attr('href$=".png"').pseudoClass('focus')]
    renders as [a[href$=".png"]:focus]. *)
Theorem C1_render_order :
  (forall parts (h h' : heap) (r : loc),
      (o <- cssSelectorBuilder.createObject ;; chain o parts) h = (h', Return r) ->
      StronglySorted rank_le parts /\
      snd (stringify r h') = Return (render parts) /\
      render parts = flat (map fragment parts)) /\
  (forall parts (h : heap),
      StronglySorted rank_le parts -> singletons_once parts ->
      exists h' r,
        (o <- cssSelectorBuilder.createObject ;; chain o parts) h = (h', Return r) /\
        snd (stringify r h') = Return (render parts)) /\
  (forall h : heap,
      snd ((o <- cssSelectorBuilder.element "a" ;;
            o <- attr o ("href$=" +:+ dquote +:+ ".png" +:+ dquote) None ;;
            o <- pseudoClass o "focus" None ;;
            stringify o) h) =
      Return ("a[href$=" +:+ dquote +:+ ".png" +:+ dquote +:+ "]:focus")).
Proof.
  assert (Hret : forall parts (h h' : heap) (r : loc),
      (o <- cssSelectorBuilder.createObject ;; chain o parts) h = (h', Return r) ->
      StronglySorted rank_le parts /\
      snd (stringify r h') = Return (render parts) /\
      render parts = flat (map fragment parts)).
  { intros parts h h' r Hrun. unfold bind in Hrun. rewrite createObject_eq in Hrun.
    apply (chain_Return parts _ _ _ _ constructor (lookup_new h _)) in Hrun
      as (-> & o' & H' & Htext & _ & Hsort).
    split; [exact Hsort|]. rewrite <- (sorted_render parts Hsort).
    split; [|reflexivity].
    rewrite stringify_eq, H'. cbn [snd]. now rewrite Htext. }
  split; [exact Hret | split].
  - intros parts h Hsort Honce.
    destruct (chain_admissible parts (List.length h) (h ++ [constructor])%list
                constructor (lookup_new h _) Hsort Honce) as [h' Hrun].
    + apply Forall_forall. intros [c v] _. now destruct c.
    + intros c Hc. now destruct c.
    + exists h', (List.length h).
      assert (Hrun' : (o <- cssSelectorBuilder.createObject ;; chain o parts) h =
                      (h', Return (List.length h)))
        by (unfold bind; rewrite createObject_eq; exact Hrun).
      split; [exact Hrun'|]. apply (Hret parts h h' _ Hrun').
  - intros h. unfold cssSelectorBuilder.element, bind. rewrite createObject_eq.
    change (element ?o ?v ?s) with (append Element o v s).
    change (attr ?o ?v ?s) with (append Attr o v s).
    change (pseudoClass ?o ?v ?s) with (append PseudoClass o v s).
    rewrite append_eq, lookup_new. cbn.
    rewrite append_eq. erewrite lookup_put by apply lookup_new. cbn.
    rewrite list_insert_insert_eq.
    rewrite append_eq. erewrite lookup_put by apply lookup_new. cbn.
    rewrite list_insert_insert_eq.
    rewrite stringify_eq. erewrite lookup_put by apply lookup_new. reflexivity.
Qed.

Lemma C1_render_order_witness :
  (StronglySorted rank_le [(Id, "main"); (Class, "container"); (Class, "editable")] /\
   snd (stringify 0%nat
          [appended Class "editable" None
             (appended Class "container" None
                (appended Id "main" None constructor))]) =
     Return (render [(Id, "main"); (Class, "container"); (Class, "editable")]) /\
   render [(Id, "main"); (Class, "container"); (Class, "editable")] =
     flat (map fragment [(Id, "main"); (Class, "container"); (Class, "editable")])) /\
  (exists h' r,
     (o <- cssSelectorBuilder.createObject ;;
      chain o [(Element, "a"); (Class, "x"); (Class, "y"); (PseudoElement, "after")])
       [] = (h', Return r) /\
     snd (stringify r h') =
       Return (render [(Element, "a"); (Class, "x"); (Class, "y");
                       (PseudoElement, "after")])).
Proof.
  split.
  - apply (proj1 C1_render_order
             [(Id, "main"); (Class, "container"); (Class, "editable")] [] _ 0%nat).
    reflexivity.
  - apply (proj1 (proj2 C1_render_order)).
    + repeat constructor; unfold rank_le; cbn; lia.
    + unfold singletons_once. cbn.
      repeat constructor; rewrite ?list_elem_of_In; cbn; intuition discriminate.
Defined.

(** C2, as stated, fails: on [element('a').class('b')] the stored weight is
    that of class, element has the lower weight, and [element('c')] throws
    the error of [checkIfDuplicate], not that of [checkSelectorWeight]. *)
Lemma C2_counterexample :
  weight <$> store_element_class !! 0%nat = Some (Some (rank Class)) /\
  rank Element < rank Class /\
  append Element 0%nat "c" None store_element_class =
    (store_element_class, Throw UniquenessError) /\
  UniquenessError <> OrderError.
Proof.
  split; [reflexivity|]. split; [reflexivity|].
  split; [reflexivity | discriminate].
Qed.

(** C2 (amended): the stored weight of an instance never goes down, whatever
    is called on whatever instance; after a part of kind [c0] was appended,
    an append of a kind [c] of strictly lower weight throws and leaves the
    store alone, with the order error unless [c] is a singleton kind already
    set on the instance, for which it is the uniqueness error; and [class]
    after [attr] throws the order error. *)
Theorem C2_weight_never_decreases :
  (forall ks (h : heap) (this : loc) o,
      h !! this = Some o ->
      exists o', run ks h !! this = Some o' /\
                 toNumber (weight o) <= toNumber (weight o')) /\
  (forall c0 c (this : loc) v0 s0 (h h1 : heap) r ks v s,
      append c0 this v0 s0 h = (h1, Return r) ->
      rank c < rank c0 ->
      exists o, run ks h1 !! this = Some o /\
        append c this v s (run ks h1) =
        (run ks h1, Throw (if isSet c o then UniquenessError else OrderError))) /\
  (forall (this : loc) v0 s0 (h h1 : heap) r ks v s,
      attr this v0 s0 h = (h1, Return r) ->
      class this v s (run ks h1) = (run ks h1, Throw OrderError)).
Proof.
  assert (Hlow : forall c0 c (this : loc) v0 s0 (h h1 : heap) r ks v s,
      append c0 this v0 s0 h = (h1, Return r) ->
      rank c < rank c0 ->
      exists o, run ks h1 !! this = Some o /\
        append c this v s (run ks h1) =
        (run ks h1, Throw (if isSet c o then UniquenessError else OrderError))).
  { intros c0 c this v0 s0 h h1 r ks v s Hret Hlt.
    apply append_Return in Hret as (o & _ & _ & _ & _ & H1 & _).
    destruct (grows_run ks h1 this _ H1) as (o' & H' & [Hw _]).
    exists o'. split; [exact H'|].
    apply append_lower; [exact H'|]. cbn in Hw. lia. }
  split; [|split].
  - intros ks h this o H.
    destruct (grows_run ks h this o H) as (o' & H' & [Hw _]). eauto.
  - exact Hlow.
  - intros this v0 s0 h h1 r ks v s Hret.
    destruct (Hlow Attr Class this v0 s0 h h1 r ks v s Hret eq_refl)
      as (o & _ & Hc).
    exact Hc.
Qed.

Lemma C2_weight_never_decreases_witness :
  (exists o', run [Append Id 0%nat "x" None] [constructor] !! 0%nat = Some o' /\
              toNumber (weight constructor) <= toNumber (weight o')) /\
  (exists o, run [Stringify 0%nat] store_element_class !! 0%nat = Some o /\
     append Id 0%nat "c" None (run [Stringify 0%nat] store_element_class) =
     (run [Stringify 0%nat] store_element_class,
      Throw (if isSet Id o then UniquenessError else OrderError))) /\
  class 0%nat "b" None (run [Stringify 0%nat] [appended Attr "a" None constructor]) =
  (run [Stringify 0%nat] [appended Attr "a" None constructor], Throw OrderError).
Proof.
  split; [|split].
  - apply (proj1 C2_weight_never_decreases
             [Append Id 0%nat "x" None] [constructor] 0%nat constructor).
    reflexivity.
  - apply (proj1 (proj2 C2_weight_never_decreases)
             Class Id 0%nat "b" None
             (run [New; Append Element 0%nat "a" None] []) store_element_class
             0%nat [Stringify 0%nat] "c" None); reflexivity.
  - apply (proj2 (proj2 C2_weight_never_decreases)
             0%nat "a" None [constructor] _ 0%nat [Stringify 0%nat] "b" None).
    reflexivity.
Defined.

(** C3: once a part of a singleton kind (element, id, pseudo-element) was
    appended to an instance, every later append of that kind to it throws
    the uniqueness error and leaves the store alone, whatever was called in
    between; [id] twice is the example.  An append of class, attribute or
    pseudo-class never throws the uniqueness error, and one that returned
    returns again when repeated. *)
Theorem C3_singletons_once :
  (forall c (this : loc) v s (h h1 : heap) r ks v' s',
      singleton c = true ->
      append c this v s h = (h1, Return r) ->
      append c this v' s' (run ks h1) = (run ks h1, Throw UniquenessError)) /\
  (forall h, snd ((o <- cssSelectorBuilder.id "a" ;; id o "b" None) h) =
             Throw UniquenessError) /\
  (forall c (this : loc) v s (h : heap),
      singleton c = false ->
      snd (append c this v s h) <> Throw UniquenessError) /\
  (forall c (this : loc) v s (h h1 : heap) r v' s',
      singleton c = false ->
      append c this v s h = (h1, Return r) ->
      exists h2, append c this v' s' h1 = (h2, Return this)).
Proof.
  split; [|split; [|split]].
  - intros c this v s h h1 r ks v' s' Hc Hret.
    apply append_Return in Hret as (o & _ & _ & _ & _ & H1 & _).
    destruct (grows_run ks h1 this _ H1) as (o' & H' & [_ Hf]).
    apply (append_set _ _ _ _ _ _ H'), Hf, isSet_appended, Hc.
  - intros h. unfold cssSelectorBuilder.id, bind.
    rewrite createObject_eq.
    change (CSSSelectorBuilder.id ?o ?v ?s) with (append Id o v s).
    rewrite append_eq, lookup_new. cbn.
    rewrite append_eq. erewrite lookup_put by apply lookup_new. reflexivity.
  - intros c this v s h Hc. rewrite append_eq.
    destruct (h !! this) as [o|]; [|discriminate].
    assert (isSet c o = false) as -> by now destruct c.
    destruct (rank c <? toNumber (weight o)); discriminate.
  - intros c this v s h h1 r v' s' Hc Hret.
    apply append_Return in Hret as (o & _ & _ & _ & _ & H1 & _).
    eexists. rewrite append_eq, H1.
    assert (isSet c (appended c v s o) = false) as -> by now destruct c.
    cbn [weight appended toNumber]. rewrite Z.ltb_irrefl. reflexivity.
Qed.

Lemma C3_singletons_once_witness :
  append PseudoElement 0%nat "after" None
    (run [Append PseudoElement 0%nat "x" None]
       [appended PseudoElement "before" None constructor]) =
  (run [Append PseudoElement 0%nat "x" None]
     [appended PseudoElement "before" None constructor],
   Throw UniquenessError) /\
  snd (append Class 0%nat "a" None [constructor]) <> Throw UniquenessError /\
  exists h2, append Class 0%nat "b" None [appended Class "a" None constructor] =
             (h2, Return 0%nat).
Proof.
  split; [|split].
  - apply (proj1 C3_singletons_once PseudoElement 0%nat "before" None
             [constructor] _ 0%nat [Append PseudoElement 0%nat "x" None]
             "after" None); reflexivity.
  - apply (proj1 (proj2 (proj2 C3_singletons_once))); reflexivity.
  - apply (proj2 (proj2 (proj2 C3_singletons_once)) Class 0%nat "a" None
             [constructor] _ 0%nat "b" None); reflexivity.
Defined.

(** C4: for two selectors in the store and any combinator, the selector
    [combine] returns renders to what [stringify] of the left one, a space,
    the combinator, a space and [stringify] of the right one, run in this
    order, give; for two distinct selectors that is the text of the left,
    " ", the combinator, " " and the text of the right as they stood before
    the call. *)
Theorem C4_combine_renders (left right : loc) combinator (h : heap) oL oR :
  h !! left = Some oL -> h !! right = Some oR ->
  exists text,
    snd ((o <- cssSelectorBuilder.combine left combinator right ;;
          stringify o) h) = Return text /\
    snd ((l <- stringify left ;; r <- stringify right ;;
          ret (l +:+ " " +:+ combinator +:+ " " +:+ r)) h) = Return text /\
    (left <> right ->
     text = string oL +:+ " " +:+ combinator +:+ " " +:+ string oR).
Proof.
  intros HL HR.
  set (oR' := if decide (left = right) then set_string "" oL else oR).
  exists (string oL +:+ " " +:+ combinator +:+ " " +:+ string oR').
  split; [|split].
  - unfold bind at 1.
    rewrite (facade_combine_eq left right combinator h oL oR oR' HL HR eq_refl).
    rewrite stringify_eq, list_lookup_insert_eq; [reflexivity|].
    rewrite !length_insert, length_app. cbn. lia.
  - unfold bind, ret. rewrite stringify_eq, HL. cbv beta iota.
    rewrite stringify_eq, (lookup_drained h left right oL oR HL HR).
    reflexivity.
  - intros Hne. subst oR'. now destruct (decide (left = right)).
Qed.

Lemma C4_combine_renders_witness :
  exists text,
    snd ((o <- cssSelectorBuilder.combine 0%nat "+" 1%nat ;;
          stringify o) store_div_table) = Return text /\
    snd ((l <- stringify 0%nat ;; r <- stringify 1%nat ;;
          ret (l +:+ " " +:+ "+" +:+ " " +:+ r)) store_div_table) = Return text /\
    (0%nat <> 1%nat -> text = "div#main" +:+ " " +:+ "+" +:+ " " +:+ "table#data").
Proof.
  apply (C4_combine_renders 0%nat 1%nat "+" store_div_table
           (Build "div#main" true true false (Some 10))
           (Build "table#data" true true false (Some 10))); reflexivity.
Defined.

(** C5: [stringify] returns the accumulated text and leaves the instance
    with an empty text and every other property as it was; no other instance
    is touched; a second [stringify] right after returns the empty string
    and changes nothing. *)
Theorem C5_stringify_drains (this : loc) (h : heap) o :
  h !! this = Some o ->
  exists h',
    stringify this h = (h', Return (string o)) /\
    h' !! this =
      Some {| string := "";
              existsElement := existsElement o;
              existsId := existsId o;
              existsPseudoElement := existsPseudoElement o;
              weight := weight o |} /\
    (forall x : loc, x <> this -> h' !! x = h !! x) /\
    stringify this h' = (h', Return "").
Proof.
  intros H. exists (<[this := set_string "" o]> h).
  assert (H' : <[this := set_string "" o]> h !! this = Some (set_string "" o))
    by (eapply lookup_put, H).
  split; [now rewrite stringify_eq, H|].
  split; [exact H'|].
  split.
  - intros x Hx. apply list_lookup_insert_ne. congruence.
  - rewrite stringify_eq, H', list_insert_insert_eq. reflexivity.
Qed.

Lemma C5_stringify_drains_witness :
  exists h',
    stringify 0%nat store_element_class = (h', Return "a.b") /\
    h' !! 0%nat =
      Some {| string := ""; existsElement := true; existsId := false;
              existsPseudoElement := false; weight := Some 100 |} /\
    (forall x : loc, x <> 0%nat -> h' !! x = store_element_class !! x) /\
    stringify 0%nat h' = (h', Return "").
Proof.
  apply (C5_stringify_drains 0%nat store_element_class
           (Build "a.b" true false false (Some 100))).
  reflexivity.
Defined.

(** C6: an append that throws, with the uniqueness error, the order error or
    anything else, leaves the whole store, and so the text, the three flags
    and the weight of the instance, exactly as it was before the call; on an
    instance that is in the store these two errors are the only ones. *)
Theorem C6_append_atomic c (this : loc) value selector (h h' : heap) e :
  append c this value selector h = (h', Throw e) ->
  h' = h /\
  (forall o, h !! this = Some o ->
     h' !! this = Some o /\ (e = UniquenessError \/ e = OrderError)).
Proof.
  intros Hthrow. apply append_Throw in Hthrow as [-> Hcase].
  split; [reflexivity|]. intros o H. split; [exact H|].
  destruct Hcase as [[Hn _]|(o' & _ & [[_ ->]|(_ & _ & ->)])]; auto.
  congruence.
Qed.

Lemma C6_append_atomic_witness :
  store_element_class = store_element_class /\
  (forall o, store_element_class !! 0%nat = Some o ->
     store_element_class !! 0%nat = Some o /\
     (OrderError = UniquenessError \/ OrderError = OrderError)).
Proof.
  apply (C6_append_atomic Id 0%nat "x" None store_element_class
           store_element_class (OrderError)).
  reflexivity.
Defined.

(** C7, as stated, fails: after [class('a')] the call [element('x')] throws
    and changes nothing, the stored weight is that of class, and a further
    [class('b')], of that same weight, returns. *)
Lemma C7_counterexample :
  append Class 0%nat "a" None [constructor] = (store_class, Return 0%nat) /\
  append Element 0%nat "x" None store_class =
    (store_class, Throw OrderError) /\
  weight <$> store_class !! 0%nat = Some (Some (rank Class)) /\
  snd (append Class 0%nat "b" None store_class) = Return 0%nat.
Proof. repeat (split; [reflexivity|]). reflexivity. Qed.

(** C7 (amended): when an append throws after a part of kind [c1] was
    appended with success, the store is as that append left it and the
    instance stays usable: [stringify] returns, and so does every append of
    a kind not yet set whose weight is not below that of [c1].  A further
    append of a kind of lower weight throws; one of the same weight throws,
    with the uniqueness error, if the kind is element, id or pseudo-element,
    and returns if it is class, attribute or pseudo-class. *)
Theorem C7_after_error c1 (this : loc) v1 s1 (h h1 : heap) r c0 v0 s0 h' e :
  append c1 this v1 s1 h = (h1, Return r) ->
  append c0 this v0 s0 h1 = (h', Throw e) ->
  h' = h1 /\
  (forall c v s, rank c < rank c1 ->
     exists e', append c this v s h' = (h', Throw e')) /\
  (forall c v s, singleton c = true -> rank c = rank c1 ->
     append c this v s h' = (h', Throw UniquenessError)) /\
  (forall c v s, singleton c = false -> rank c = rank c1 ->
     exists h'', append c this v s h' = (h'', Return this)) /\
  (forall c v s o, h' !! this = Some o -> isSet c o = false ->
     rank c1 <= rank c ->
     exists h'', append c this v s h' = (h'', Return this)) /\
  (exists h'' text, stringify this h' = (h'', Return text)).
Proof.
  intros Hret Hthrow.
  apply append_Return in Hret as (o & _ & _ & _ & _ & H1 & _).
  apply append_Throw in Hthrow as [-> _].
  split; [reflexivity|].
  assert (Hok : forall c v s o', h1 !! this = Some o' -> isSet c o' = false ->
            rank c1 <= rank c ->
            exists h'', append c this v s h1 = (h'', Return this)).
  { intros c v s o' H' Hs Hle. eexists. rewrite append_eq, H', Hs.
    rewrite H1 in H'. injection H' as <-. cbn [weight appended toNumber].
    apply Z.ltb_ge in Hle. rewrite Hle. reflexivity. }
  repeat split.
  - intros c v s Hlt. eexists. apply append_lower with (o := appended c1 v1 s1 o);
      [exact H1 | exact Hlt].
  - intros c v s Hc Heq. apply rank_inj in Heq as ->.
    apply append_set with (o := appended c1 v1 s1 o); [exact H1|].
    now apply isSet_appended.
  - intros c v s Hc Heq. apply (Hok c v s _ H1); [|lia].
    apply rank_inj in Heq as ->. now destruct c1.
  - exact Hok.
  - eexists _, _. rewrite stringify_eq, H1. reflexivity.
Qed.

Lemma C7_after_error_witness :
  store_class = store_class /\
  (forall c v s, rank c < rank Class ->
     exists e', append c 0%nat v s store_class = (store_class, Throw e')) /\
  (forall c v s, singleton c = true -> rank c = rank Class ->
     append c 0%nat v s store_class = (store_class, Throw UniquenessError)) /\
  (forall c v s, singleton c = false -> rank c = rank Class ->
     exists h'', append c 0%nat v s store_class = (h'', Return 0%nat)) /\
  (forall c v s o, store_class !! 0%nat = Some o -> isSet c o = false ->
     rank Class <= rank c ->
     exists h'', append c 0%nat v s store_class = (h'', Return 0%nat)) /\
  (exists h'' text, stringify 0%nat store_class = (h'', Return text)).
Proof.
  apply (C7_after_error Class 0%nat "a" None [constructor] store_class 0%nat
           Element "x" None store_class (OrderError)); reflexivity.
Defined.

(** C8: an entry point of the facade runs the method it names on an
    instance that [new] has just built, at a reference the store did not
    hold before.  So the value of one facade call is never the value of a
    later one, an entry point other than [combine] leaves every instance
    that was in the store as it was, and an append to one instance leaves
    every other instance as it was. *)
Theorem C8_facade_fresh :
  (forall e (h : heap),
      h !! List.length h = None /\
      new h = ((h ++ [constructor])%list, Return (List.length h)) /\
      facade e h = method e (List.length h) (h ++ [constructor])%list) /\
  (forall e1 e2 (h1 h1' h2' : heap) (o1 o2 : loc) ks,
      facade e1 h1 = (h1', Return o1) ->
      facade e2 (run ks h1') = (h2', Return o2) ->
      o1 <> o2) /\
  (forall c value (h : heap) (x : loc) o,
      h !! x = Some o ->
      fst (facade (Start c value) h) !! x = Some o) /\
  (forall c (this x : loc) value selector (h : heap),
      x <> this -> fst (append c this value selector h) !! x = h !! x).
Proof.
  split; [|split; [|split]].
  - intros e h. split; [now apply lookup_ge_None|].
    split; [reflexivity | apply facade_eq].
  - intros e1 e2 h1 h1' h2' o1 o2 ks H1 H2.
    apply facade_Return in H1 as [_ [o Ho]].
    apply facade_Return in H2 as [-> _].
    destruct (grows_run ks h1' o1 o Ho) as (o' & Ho' & _).
    apply lookup_lt_Some in Ho'. lia.
  - intros c value h x o Hx. rewrite facade_eq. cbn [method].
    rewrite append_frame.
    + now apply lookup_app_l_Some.
    + apply lookup_lt_Some in Hx. lia.
  - intros c this x value selector h Hx. now apply append_frame.
Qed.

Lemma C8_facade_fresh_witness :
  0%nat <> 1%nat /\
  fst (facade (Start Class "c") store_element_class) !! 0%nat =
    Some (Build "a.b" true false false (Some 100)) /\
  fst (append Id 1%nat "x" None store_div_table) !! 0%nat =
    store_div_table !! 0%nat.
Proof.
  split; [|split].
  - eapply (proj1 (proj2 C8_facade_fresh) (Start Element "a") (Start Id "b")
              [] _ _ 0%nat 1%nat [Append Class 0%nat "c" None]); reflexivity.
  - apply (proj1 (proj2 (proj2 C8_facade_fresh))). reflexivity.
  - apply (proj2 (proj2 (proj2 C8_facade_fresh))). lia.
Defined.

(** C9: [combine] moves the text of its arguments into the selector it
    builds.  Through the facade that selector is a new instance, whose text
    is the text the left argument had, a space, the combinator, a space and
    the text the right argument had (nothing, if both are one selector);
    after the call each argument is the instance it was with an empty text,
    and [stringify] on it returns the empty string and changes nothing.
    The method does the same for every receiver that is neither of its two
    arguments, adding the joined text to the text of the receiver. *)
Theorem C9_combine_drains (left right : loc) combinator (h : heap) oL oR :
  h !! left = Some oL -> h !! right = Some oR ->
  (exists h',
      cssSelectorBuilder.combine left combinator right h =
        (h', Return (List.length h)) /\
      h !! List.length h = None /\
      h' !! List.length h =
        Some (set_string
                (string oL +:+ " " +:+ combinator +:+ " " +:+
                 (if decide (left = right) then "" else string oR))
                constructor) /\
      h' !! left = Some (set_string "" oL) /\
      h' !! right = Some (set_string "" oR) /\
      stringify left h' = (h', Return "") /\
      stringify right h' = (h', Return "")) /\
  (forall (this : loc) oT,
      h !! this = Some oT -> this <> left -> this <> right ->
      exists h',
        combine this left combinator right h = (h', Return this) /\
        h' !! this =
          Some (set_string
                  (string oT +:+ string oL +:+ " " +:+ combinator +:+ " " +:+
                   (if decide (left = right) then "" else string oR)) oT) /\
        h' !! left = Some (set_string "" oL) /\
        h' !! right = Some (set_string "" oR) /\
        stringify left h' = (h', Return "") /\
        stringify right h' = (h', Return "")).
Proof.
  intros HL HR.
  apply lookup_lt_Some in HL as HlenL. apply lookup_lt_Some in HR as HlenR.
  split.
  - destruct (combine_effect (List.length h) left right combinator
                (h ++ [constructor])%list constructor oL oR)
      as (h' & Hrun & HT' & HL' & HR');
      [apply lookup_new | now apply lookup_app_l_Some
      | now apply lookup_app_l_Some | lia | lia |].
    exists h'. split.
    { unfold cssSelectorBuilder.combine, bind. rewrite createObject_eq.
      exact Hrun. }
    split; [now apply lookup_ge_None|].
    split; [exact HT'|]. split; [exact HL'|]. split; [exact HR'|].
    split; eapply stringify_drained; eassumption.
  - intros this oT HT HnL HnR.
    destruct (combine_effect this left right combinator h oT oL oR
                HT HL HR HnL HnR) as (h' & Hrun & HT' & HL' & HR').
    exists h'. split; [exact Hrun|].
    split; [exact HT'|]. split; [exact HL'|]. split; [exact HR'|].
    split; eapply stringify_drained; eassumption.
Qed.

Lemma C9_combine_drains_witness :
  (exists h',
      cssSelectorBuilder.combine 0%nat "+" 1%nat store_div_table_td =
        (h', Return 3%nat) /\
      store_div_table_td !! 3%nat = None /\
      h' !! 3%nat = Some (Build "div#main + table#data" false false false None) /\
      h' !! 0%nat = Some (Build "" true true false (Some 10)) /\
      h' !! 1%nat = Some (Build "" true true false (Some 10)) /\
      stringify 0%nat h' = (h', Return "") /\
      stringify 1%nat h' = (h', Return "")) /\
  (exists h',
      combine 2%nat 0%nat "+" 1%nat store_div_table_td = (h', Return 2%nat) /\
      h' !! 2%nat =
        Some (Build "tddiv#main + table#data" true false false (Some 1)) /\
      h' !! 0%nat = Some (Build "" true true false (Some 10)) /\
      h' !! 1%nat = Some (Build "" true true false (Some 10)) /\
      stringify 0%nat h' = (h', Return "") /\
      stringify 1%nat h' = (h', Return "")).
Proof.
  pose proof (C9_combine_drains 0%nat 1%nat "+" store_div_table_td
                (Build "div#main" true true false (Some 10))
                (Build "table#data" true true false (Some 10))
                eq_refl eq_refl) as [Hfacade Hmethod].
  split; [exact Hfacade|].
  apply (Hmethod 2%nat (Build "td" true false false (Some 1)));
    first [reflexivity | lia].
Defined.

(** C10: for element, id and pseudo-element the uniqueness check comes
    first: on an instance where the kind is already set and whose stored
    weight is above that of the kind, the append throws the uniqueness
    error, which is not the order error; [id('a').class('b')] followed by
    [id('c')] is the example. *)
Theorem C10_uniqueness_before_order :
  (forall c (this : loc) value selector (h : heap) o,
      h !! this = Some o ->
      singleton c = true -> isSet c o = true ->
      rank c < toNumber (weight o) ->
      append c this value selector h = (h, Throw UniquenessError)) /\
  UniquenessError <> OrderError /\
  (forall h,
      snd ((o <- cssSelectorBuilder.id "a" ;; o <- class o "b" None ;;
            id o "c" None) h) = Throw UniquenessError).
Proof.
  split; [|split].
  - intros c this value selector h o H _ Hs _. now apply append_set with o.
  - discriminate.
  - intros h. unfold cssSelectorBuilder.id, bind. rewrite createObject_eq.
    change (id ?o ?v ?s) with (append Id o v s).
    change (class ?o ?v ?s) with (append Class o v s).
    rewrite append_eq, lookup_new. cbn.
    rewrite append_eq. erewrite lookup_put by apply lookup_new. cbn.
    rewrite list_insert_insert_eq.
    rewrite append_eq. erewrite lookup_put by apply lookup_new. reflexivity.
Qed.

Lemma C10_uniqueness_before_order_witness :
  append Element 0%nat "c" None store_element_class =
  (store_element_class, Throw UniquenessError).
Proof.
  apply (proj1 C10_uniqueness_before_order Element 0%nat "c" None
           store_element_class (Build "a.b" true false false (Some 100)));
    reflexivity.
Defined.

(** ** Further properties of the class *)

(** X1: the optional parameter [selector] of an append method decides only
    the text put before the value: whether the call returns or throws, and
    with which error, does not depend on it, and of the instance a returning
    call leaves only the text does. *)
Theorem X1_selector_only_text c (this : loc) value s s' (h : heap) :
  snd (append c this value s h) = snd (append c this value s' h) /\
  (forall o h1 r,
      h !! this = Some o ->
      append c this value s h = (h1, Return r) ->
      exists o1,
        h1 !! this = Some o1 /\
        string o1 = string o +:+ default (defaultSelector c) s +:+ token c value /\
        set_string "" o1 = set_string "" (appended c value s' o)).
Proof.
  split.
  - rewrite !append_eq. destruct (h !! this) as [o|]; [|reflexivity].
    destruct (isSet c o); [reflexivity|].
    destruct (rank c <? toNumber (weight o)); reflexivity.
  - intros o h1 r H Hret.
    apply append_Return in Hret as (o0 & H0 & _ & _ & _ & H1 & _).
    rewrite H in H0. injection H0 as <-.
    exists (appended c value s o). auto.
Qed.

Lemma X1_selector_only_text_witness :
  snd (append Element 0%nat "a" (Some "#") [constructor]) =
  snd (append Element 0%nat "a" None [constructor]) /\
  (forall o h1 r,
      [constructor] !! 0%nat = Some o ->
      append Element 0%nat "a" (Some "#") [constructor] = (h1, Return r) ->
      exists o1,
        h1 !! 0%nat = Some o1 /\
        string o1 = string o +:+ default (defaultSelector Element) (Some "#") +:+
                    token Element "a" /\
        set_string "" o1 = set_string "" (appended Element "a" None o)).
Proof. apply (X1_selector_only_text Element 0%nat "a" (Some "#") None [constructor]). Defined.

(** X2: [checkIfDuplicate] never writes to the store.  It throws, always the
    uniqueness error, exactly when the tag is 'element', 'id' or
    'pseudo-element' and the flag of that kind is set; under any other tag
    it returns whatever the flags are. *)
Theorem X2_checkIfDuplicate_reads_only (this : loc) selectorType (h : heap) o :
  h !! this = Some o ->
  fst (checkIfDuplicate this selectorType h) = h /\
  (snd (checkIfDuplicate this selectorType h) = Throw UniquenessError \/
   snd (checkIfDuplicate this selectorType h) = Return tt) /\
  (snd (checkIfDuplicate this selectorType h) = Throw UniquenessError <->
   selectorType = "element" /\ existsElement o = true \/
   selectorType = "id" /\ existsId o = true \/
   selectorType = "pseudo-element" /\ existsPseudoElement o = true).
Proof.
  intros H. rewrite (checkIfDuplicate_eq _ _ _ _ H). cbn [fst snd].
  split; [reflexivity|].
  assert (Hflag : truthy (duplicateFlag selectorType o) = true <->
            selectorType = "element" /\ existsElement o = true \/
            selectorType = "id" /\ existsId o = true \/
            selectorType = "pseudo-element" /\ existsPseudoElement o = true).
  { unfold duplicateFlag.
    destruct (String.eqb_spec selectorType "pseudo-element") as [-> | N1].
    { cbn [truthy]. split; [auto|].
      intros [[E _]|[[E _]|[_ E]]]; [discriminate E | discriminate E | exact E]. }
    destruct (String.eqb_spec selectorType "id") as [-> | N2].
    { cbn [truthy]. split; [auto|].
      intros [[E _]|[[_ E]|[E _]]]; [discriminate E | exact E | discriminate E]. }
    destruct (String.eqb_spec selectorType "element") as [-> | N3].
    { cbn [truthy]. split; [auto|].
      intros [[_ E]|[[E _]|[E _]]]; [exact E | discriminate E | discriminate E]. }
    cbn [truthy]. split; [discriminate|].
    intros [[E _]|[[E _]|[E _]]]; contradiction. }
  destruct (truthy (duplicateFlag selectorType o)).
  - split; [auto|]. split; [intros _; now apply Hflag | reflexivity].
  - split; [auto|]. split; [discriminate|].
    intros E. apply Hflag in E. discriminate E.
Qed.

Lemma X2_checkIfDuplicate_reads_only_witness :
  fst (checkIfDuplicate 0%nat "class" store_element_class) = store_element_class /\
  (snd (checkIfDuplicate 0%nat "class" store_element_class) = Throw UniquenessError \/
   snd (checkIfDuplicate 0%nat "class" store_element_class) = Return tt) /\
  (snd (checkIfDuplicate 0%nat "class" store_element_class) = Throw UniquenessError <->
   "class" = "element" /\ true = true \/
   "class" = "id" /\ false = true \/
   "class" = "pseudo-element" /\ false = true).
Proof.
  apply (X2_checkIfDuplicate_reads_only 0%nat "class" store_element_class
           (Build "a.b" true false false (Some 100))).
  reflexivity.
Defined.

(** X3: [checkSelectorWeight], for the six weights the methods pass,
    compares strictly, with [null] counting as 0.  Once it has returned for
    the weight of a kind, the stored weight is that weight and nothing else
    of the store has changed; asking again for the same weight returns and
    changes nothing, the weight of every kind that is not lower is accepted
    and stored, and the weight of every lower kind throws the order error
    and changes nothing.  On a new instance each of the six is accepted. *)
Theorem X3_checkSelectorWeight_bound c (this : loc) (h h1 : heap) :
  checkSelectorWeight this (rank c) h = (h1, Return tt) ->
  (exists o, h !! this = Some o /\ toNumber (weight o) <= rank c /\
             h1 = <[this := set_weight (Some (rank c)) o]> h) /\
  checkSelectorWeight this (rank c) h1 = (h1, Return tt) /\
  (forall c', rank c' < rank c ->
     checkSelectorWeight this (rank c') h1 = (h1, Throw OrderError)) /\
  (forall c' o1, rank c <= rank c' -> h1 !! this = Some o1 ->
     checkSelectorWeight this (rank c') h1 =
     (<[this := set_weight (Some (rank c')) o1]> h1, Return tt)) /\
  (forall (s : heap) c',
      checkSelectorWeight (List.length s) (rank c') (s ++ [constructor])%list =
      (<[List.length s := set_weight (Some (rank c')) constructor]>
         (s ++ [constructor])%list, Return tt)).
Proof.
  intros Hret.
  destruct (h !! this) as [o|] eqn:H.
  2:{ unfold checkSelectorWeight, bind, get in Hret. rewrite H in Hret.
      discriminate. }
  rewrite (checkSelectorWeight_eq _ _ _ _ H) in Hret.
  destruct (rank c <? toNumber (weight o)) eqn:Hw; [discriminate|].
  injection Hret as <-. apply Z.ltb_ge in Hw.
  assert (H1 : <[this := set_weight (Some (rank c)) o]> h !! this =
               Some (set_weight (Some (rank c)) o)) by (eapply lookup_put, H).
  split; [eauto|]. split; [|split; [|split]].
  - rewrite (checkSelectorWeight_eq _ _ _ _ H1). cbn [weight set_weight toNumber].
    rewrite Z.ltb_irrefl, list_insert_insert_eq. reflexivity.
  - intros c' Hlt. rewrite (checkSelectorWeight_eq _ _ _ _ H1).
    cbn [weight set_weight toNumber]. apply Z.ltb_lt in Hlt. now rewrite Hlt.
  - intros c' o1 Hle Ho1. rewrite H1 in Ho1. injection Ho1 as <-.
    rewrite (checkSelectorWeight_eq _ _ _ _ H1).
    cbn [weight set_weight toNumber]. apply Z.ltb_ge in Hle. now rewrite Hle.
  - intros s c'. rewrite (checkSelectorWeight_eq _ _ _ _ (lookup_new s _)).
    now destruct c'.
Qed.

Lemma X3_checkSelectorWeight_bound_witness :
  (exists o, [appended Id "a" None constructor] !! 0%nat = Some o /\
             toNumber (weight o) <= rank Class /\
             [Build "#a" false true false (Some 100)] =
             <[0%nat := set_weight (Some (rank Class)) o]>
               [appended Id "a" None constructor]) /\
  checkSelectorWeight 0%nat (rank Class) [Build "#a" false true false (Some 100)] =
    ([Build "#a" false true false (Some 100)], Return tt) /\
  (forall c', rank c' < rank Class ->
     checkSelectorWeight 0%nat (rank c') [Build "#a" false true false (Some 100)] =
     ([Build "#a" false true false (Some 100)], Throw OrderError)) /\
  (forall c' o1, rank Class <= rank c' ->
     [Build "#a" false true false (Some 100)] !! 0%nat = Some o1 ->
     checkSelectorWeight 0%nat (rank c') [Build "#a" false true false (Some 100)] =
     (<[0%nat := set_weight (Some (rank c')) o1]>
        [Build "#a" false true false (Some 100)], Return tt)) /\
  (forall (s : heap) c',
      checkSelectorWeight (List.length s) (rank c') (s ++ [constructor])%list =
      (<[List.length s := set_weight (Some (rank c')) constructor]>
         (s ++ [constructor])%list, Return tt)).
Proof.
  apply (X3_checkSelectorWeight_bound Class 0%nat
           [appended Id "a" None constructor]
           [Build "#a" false true false (Some 100)]).
  reflexivity.
Defined.

Lemma isSet_appended_mono c' c v s o :
  isSet c' o = true -> isSet c' (appended c v s o) = true.
Proof. destruct c, c'; cbn; auto. Qed.

Lemma chain_Return_once parts : forall (this : loc) (h h' : heap) r o,
  h !! this = Some o ->
  chain this parts h = (h', Return r) ->
  singletons_once parts /\
  (forall c, isSet c o = true -> Forall (fun p => fst p <> c) parts).
Proof.
  induction parts as [|[c v] rest IH]; intros this h h' r o H Hret.
  - split; [apply NoDup_nil_2 | intros; constructor].
  - cbn [chain] in Hret. unfold bind in Hret.
    destruct (append c this v None h) as [h1 [r1|e]] eqn:Happ; [|discriminate].
    apply append_Return in Happ as (o0 & H0 & Hs & _ & _ & H1 & ->).
    rewrite H in H0. injection H0 as <-.
    destruct (IH this h1 h' r _ H1 Hret) as [Honce Hex].
    split.
    + unfold singletons_once in *. cbn [map fst List.filter].
      destruct (singleton c) eqn:Hsing; [|exact Honce].
      apply NoDup_cons. split; [|exact Honce].
      intros Hin. apply list_elem_of_In, filter_In in Hin as [Hin _].
      apply in_map_iff in Hin as (p & Hp & Hin).
      specialize (Hex c (isSet_appended c v None o Hsing)).
      rewrite Forall_forall in Hex.
      apply (Hex p); [apply list_elem_of_In; exact Hin | exact Hp].
    + intros c' Hc'. constructor.
      * cbn [fst]. intros ->. congruence.
      * apply Hex. now apply isSet_appended_mono.
Qed.

Lemma chain_Throw parts : forall (this : loc) (h h' : heap) e o,
  h !! this = Some o ->
  chain this parts h = (h', Throw e) ->
  exists pre p post,
    parts = (pre ++ p :: post)%list /\
    chain this pre h = (h', Return this) /\
    append (fst p) this (snd p) None h' = (h', Throw e) /\
    (e = UniquenessError \/ e = OrderError).
Proof.
  induction parts as [|[c v] rest IH]; intros this h h' e o H Hthrow.
  - discriminate.
  - cbn [chain] in Hthrow. unfold bind in Hthrow.
    destruct (append c this v None h) as [h1 [r1|e1]] eqn:Happ.
    + pose proof Happ as Happ'.
      apply append_Return in Happ' as (o0 & _ & _ & _ & _ & H1 & ->).
      destruct (IH this h1 h' e _ H1 Hthrow) as (pre & p & post & -> & Hpre & Hp & He).
      exists ((c, v) :: pre), p, post. split; [reflexivity|].
      split; [|auto]. cbn [chain]. unfold bind. now rewrite Happ.
    + injection Hthrow as <- <-. pose proof Happ as Happ'.
      apply append_Throw in Happ' as [-> Hcase].
      exists [], (c, v), rest. split; [reflexivity|].
      split; [reflexivity|]. split; [exact Happ|].
      destruct Hcase as [[Hn _]|(o' & _ & [[_ ->]|(_ & _ & ->)])]; auto.
      congruence.
Qed.

(** X4: a chain of appends with the default selectors on a new instance
    returns exactly when its parts come in non-decreasing order of weight
    and none of element, id and pseudo-element comes twice. *)
Theorem X4_chain_accepts_iff parts (h : heap) :
  (exists h' r,
      (o <- cssSelectorBuilder.createObject ;; chain o parts) h = (h', Return r)) <->
  StronglySorted rank_le parts /\ singletons_once parts.
Proof.
  split.
  - intros (h' & r & Hrun). unfold bind in Hrun. rewrite createObject_eq in Hrun.
    pose proof (chain_Return parts _ _ _ _ constructor (lookup_new h _) Hrun)
      as (_ & _ & _ & _ & _ & Hsort).
    pose proof (chain_Return_once parts _ _ _ _ constructor (lookup_new h _) Hrun)
      as [Honce _].
    auto.
  - intros [Hsort Honce].
    destruct (chain_admissible parts (List.length h) (h ++ [constructor])%list
                constructor (lookup_new h _) Hsort Honce) as [h' Hrun].
    + apply Forall_forall. intros [c v] _. now destruct c.
    + intros c Hc. now destruct c.
    + exists h', (List.length h). unfold bind. now rewrite createObject_eq.
Qed.

Lemma X4_chain_accepts_iff_witness :
  exists h' r,
    (o <- cssSelectorBuilder.createObject ;;
     chain o [(Element, "li"); (Class, "odd"); (Class, "big"); (PseudoClass, "hover")])
      [] = (h', Return r).
Proof.
  apply (proj2 (X4_chain_accepts_iff _ [])). split.
  - repeat constructor; unfold rank_le; cbn; lia.
  - unfold singletons_once. cbn.
    repeat constructor; rewrite ?list_elem_of_In; cbn; intuition discriminate.
Defined.

(** X5: a chain that returns on an instance already in use, with text [t],
    leaves [t] followed by the parts in the fixed order for [stringify]; its
    parts are none below the stored weight and none of a singleton kind the
    instance had set.  If [stringify] is called first, the same chain
    returns as well and renders to the parts alone. *)
Theorem X5_chain_on_used_instance parts (this : loc) (h h' : heap) r o :
  h !! this = Some o ->
  chain this parts h = (h', Return r) ->
  r = this /\
  snd (stringify this h') = Return (string o +:+ render parts) /\
  Forall (fun p => toNumber (weight o) <= rank (fst p)) parts /\
  (forall c, isSet c o = true -> Forall (fun p => fst p <> c) parts) /\
  snd ((_ <- stringify this ;; o' <- chain this parts ;; stringify o') h) =
    Return (render parts).
Proof.
  intros H Hret.
  pose proof (chain_Return parts _ _ _ _ o H Hret)
    as (-> & o' & H' & Htext & Hall & Hsort).
  pose proof (chain_Return_once parts _ _ _ _ o H Hret) as [Honce Hex].
  split; [reflexivity|]. split.
  { rewrite stringify_eq, H'. cbn [snd].
    now rewrite Htext, (sorted_render parts Hsort). }
  split; [exact Hall|]. split; [exact Hex|].
  unfold bind. rewrite stringify_eq, H.
  assert (H0 : <[this := set_string "" o]> h !! this = Some (set_string "" o))
    by (eapply lookup_put, H).
  destruct (chain_admissible parts this _ _ H0 Hsort Honce Hall Hex) as [h2 Hrun].
  rewrite Hrun.
  pose proof (chain_Return parts _ _ _ _ _ H0 Hrun) as (_ & o2 & H2 & Htext2 & _).
  rewrite stringify_eq, H2. cbn [snd].
  now rewrite Htext2, (sorted_render parts Hsort).
Qed.

Lemma X5_chain_on_used_instance_witness :
  0%nat = 0%nat /\
  snd (stringify 0%nat
         [appended Attr "x" None (appended Class "c" None
            (Build "a.b" true false false (Some 100)))]) =
    Return ("a.b" +:+ render [(Class, "c"); (Attr, "x")]) /\
  Forall (fun p => 100 <= rank (fst p)) [(Class, "c"); (Attr, "x")] /\
  (forall c, isSet c (Build "a.b" true false false (Some 100)) = true ->
     Forall (fun p => fst p <> c) [(Class, "c"); (Attr, "x")]) /\
  snd ((_ <- stringify 0%nat ;;
        o' <- chain 0%nat [(Class, "c"); (Attr, "x")] ;;
        stringify o') store_element_class) =
    Return (render [(Class, "c"); (Attr, "x")]).
Proof.
  apply (X5_chain_on_used_instance [(Class, "c"); (Attr, "x")] 0%nat
           store_element_class _ 0%nat (Build "a.b" true false false (Some 100)));
    reflexivity.
Defined.

(** X6: a chain that throws is not undone.  It throws at its first part
    that the instance refuses, with the uniqueness or the order error; the
    parts before that one stay appended, and [stringify] then returns the
    old text followed by them. *)
Theorem X6_failed_chain_keeps_prefix parts (this : loc) (h h' : heap) e o :
  h !! this = Some o ->
  chain this parts h = (h', Throw e) ->
  exists pre p post,
    parts = (pre ++ p :: post)%list /\
    chain this pre h = (h', Return this) /\
    append (fst p) this (snd p) None h' = (h', Throw e) /\
    (e = UniquenessError \/ e = OrderError) /\
    snd (stringify this h') = Return (string o +:+ flat (map fragment pre)).
Proof.
  intros H Hthrow.
  destruct (chain_Throw parts _ _ _ _ o H Hthrow)
    as (pre & p & post & Hsplit & Hpre & Hp & He).
  exists pre, p, post. repeat (split; [assumption|]).
  pose proof (chain_Return pre _ _ _ _ o H Hpre) as (_ & o' & H' & Htext & _).
  rewrite stringify_eq, H'. cbn [snd]. now rewrite Htext.
Qed.

Lemma X6_failed_chain_keeps_prefix_witness :
  exists pre p post,
    [(Element, "a"); (Id, "b"); (Element, "c"); (Class, "d")] =
      (pre ++ p :: post)%list /\
    chain 0%nat pre [constructor] =
      ([Build "a#b" true true false (Some 10)], Return 0%nat) /\
    append (fst p) 0%nat (snd p) None [Build "a#b" true true false (Some 10)] =
      ([Build "a#b" true true false (Some 10)], Throw UniquenessError) /\
    (UniquenessError = UniquenessError \/ UniquenessError = OrderError) /\
    snd (stringify 0%nat [Build "a#b" true true false (Some 10)]) =
      Return (string constructor +:+ flat (map fragment pre)).
Proof.
  apply (X6_failed_chain_keeps_prefix
           [(Element, "a"); (Id, "b"); (Element, "c"); (Class, "d")]
           0%nat [constructor] _ _ constructor); reflexivity.
Defined.

(** X7: an entry point of the facade that starts a selector never throws:
    whatever the store, it returns the reference of one new instance, which
    holds the part just appended and renders to it. *)
Theorem X7_facade_start_returns c value (h : heap) :
  exists h',
    facade (Start c value) h = (h', Return (List.length h)) /\
    List.length h' = S (List.length h) /\
    h' !! List.length h = Some (appended c value None constructor) /\
    snd (stringify (List.length h) h') = Return (fragment (c, value)).
Proof.
  rewrite facade_eq. cbn [method]. rewrite append_eq, lookup_new.
  assert (isSet c constructor = false) as -> by now destruct c.
  assert ((rank c <? toNumber (weight constructor)) = false) as ->
    by now destruct c.
  eexists. split; [reflexivity|].
  assert (Hnew : <[List.length h := appended c value None constructor]>
                   (h ++ [constructor])%list !! List.length h =
                 Some (appended c value None constructor))
    by (eapply lookup_put, lookup_new).
  split; [|split; [exact Hnew|]].
  - rewrite length_insert, length_app. cbn. lia.
  - rewrite stringify_eq, Hnew. cbn [snd]. now rewrite appended_text.
Qed.

(** X8: [combine] checks neither order nor uniqueness, and the selector the
    facade returns from it is a new instance, at a reference the store did
    not hold, with the joined text of the two arguments, no flag set and no
    weight: every append to it returns and adds its part after the joined
    text, an element after a whole combined selector included. *)
Theorem X8_composite_accepts_any_part (left right : loc) combinator (h : heap) oL oR :
  h !! left = Some oL -> h !! right = Some oR ->
  exists h',
    cssSelectorBuilder.combine left combinator right h =
      (h', Return (List.length h)) /\
    h !! List.length h = None /\
    h' !! List.length h =
      Some {| string := string oL +:+ " " +:+ combinator +:+ " " +:+
                        (if decide (left = right) then "" else string oR);
              existsElement := false;
              existsId := false;
              existsPseudoElement := false;
              weight := None |} /\
    (forall c value selector,
        append c (List.length h) value selector h' =
        (<[List.length h :=
             appended c value selector
               {| string := string oL +:+ " " +:+ combinator +:+ " " +:+
                            (if decide (left = right) then "" else string oR);
                  existsElement := false;
                  existsId := false;
                  existsPseudoElement := false;
                  weight := None |}]> h',
         Return (List.length h))).
Proof.
  intros HL HR.
  apply lookup_lt_Some in HL as HlenL. apply lookup_lt_Some in HR as HlenR.
  destruct (combine_effect (List.length h) left right combinator
              (h ++ [constructor])%list constructor oL oR)
    as (h' & Hrun & HT' & _);
    [apply lookup_new | now apply lookup_app_l_Some
    | now apply lookup_app_l_Some | lia | lia |].
  exists h'. split.
  { unfold cssSelectorBuilder.combine, bind. rewrite createObject_eq.
    exact Hrun. }
  split; [now apply lookup_ge_None|].
  split; [exact HT'|].
  intros c value selector. rewrite append_eq, HT'.
  assert (isSet c (set_string
            (string constructor +:+ string oL +:+ " " +:+ combinator +:+ " " +:+
             (if decide (left = right) then "" else string oR))
            constructor) = false) as -> by now destruct c.
  cbn [weight set_string constructor toNumber].
  assert ((rank c <? 0) = false) as -> by now destruct c.
  reflexivity.
Qed.

Lemma X8_composite_accepts_any_part_witness :
  exists h',
    cssSelectorBuilder.combine 0%nat ">" 1%nat store_div_table =
      (h', Return 2%nat) /\
    store_div_table !! 2%nat = None /\
    h' !! 2%nat = Some (Build "div#main > table#data" false false false None) /\
    (forall c value selector,
        append c 2%nat value selector h' =
        (<[2%nat :=
             appended c value selector
               (Build "div#main > table#data" false false false None)]> h',
         Return 2%nat)).
Proof.
  apply (X8_composite_accepts_any_part 0%nat 1%nat ">" store_div_table
           (Build "div#main" true true false (Some 10))
           (Build "table#data" true true false (Some 10))); reflexivity.
Defined.

Lemma stringify_frame (this x : loc) (h : heap) :
  x <> this -> fst (stringify this h) !! x = h !! x.
Proof.
  intros Hx. rewrite stringify_eq. destruct (h !! this); [|reflexivity].
  cbn. apply list_lookup_insert_ne. congruence.
Qed.

Lemma setValue_frame (this x : loc) value selector (h : heap) :
  x <> this -> fst (setValue this value selector h) !! x = h !! x.
Proof.
  intros Hx. destruct (h !! this) as [o|] eqn:H.
  - rewrite (setValue_eq _ _ _ _ _ H). cbn.
    apply list_lookup_insert_ne. congruence.
  - now rewrite (setValue_None _ _ _ _ H).
Qed.

(** X9: [combine] touches its receiver and its two arguments only: every
    other instance of the store is the same after the call, whether the call
    returned or threw. *)
Theorem X9_combine_frame (this s1 s2 x : loc) combinator (h : heap) :
  x <> this -> x <> s1 -> x <> s2 ->
  fst (combine this s1 combinator s2 h) !! x = h !! x.
Proof.
  intros Hthis H1 H2. unfold combine, bind, ret.
  pose proof (stringify_frame s1 x h H1) as F1.
  destruct (stringify s1 h) as [h1 [v1|e]]; [|exact F1].
  pose proof (stringify_frame s2 x h1 H2) as F2.
  destruct (stringify s2 h1) as [h2 [v2|e]]; cbn [fst] in *;
    [|rewrite F2; exact F1].
  pose proof (setValue_frame this x (v1 +:+ " " +:+ combinator +:+ " " +:+ v2) ""
                h2 Hthis) as F3.
  destruct (setValue _ _ _ h2) as [h3 [[]|e]]; cbn [fst] in *;
    rewrite F3, F2; exact F1.
Qed.

Lemma X9_combine_frame_witness :
  fst (combine 0%nat 1%nat "~" 1%nat store_div_table_td) !! 2%nat =
    store_div_table_td !! 2%nat /\
  store_div_table_td !! 2%nat = Some (Build "td" true false false (Some 1)) /\
  fst (combine 0%nat 1%nat "~" 1%nat store_div_table_td) !! 0%nat =
    Some (Build "div#maintable#data ~ " true true false (Some 10)).
Proof.
  split; [apply X9_combine_frame; lia|]. split; reflexivity.
Defined.

(** X10: the method [combine] called on an instance other than its two
    distinct arguments returns that instance with the joined text added
    after the text it had, not in its place; the arguments lose their text
    and nothing else, and the flags and the weight of all three stay as
    they were. *)
Theorem X10_combine_appends_to_receiver
    (this left right : loc) combinator (h : heap) oT oL oR :
  h !! this = Some oT -> h !! left = Some oL -> h !! right = Some oR ->
  this <> left -> this <> right -> left <> right ->
  exists h',
    combine this left combinator right h = (h', Return this) /\
    h' !! this =
      Some (set_string
              (string oT +:+ string oL +:+ " " +:+ combinator +:+ " " +:+ string oR)
              oT) /\
    h' !! left = Some (set_string "" oL) /\
    h' !! right = Some (set_string "" oR).
Proof.
  intros HT HL HR HnL HnR Hne.
  assert (E : oR = (if decide (left = right) then set_string "" oL else oR))
    by now destruct (decide (left = right)).
  eexists. split.
  - exact (combine_distinct this left right combinator h oT oL oR oR
             HT HL HR HnL HnR E).
  - apply lookup_lt_Some in HT as LT. apply lookup_lt_Some in HL as LL.
    apply lookup_lt_Some in HR as LR.
    split; [|split].
    + apply list_lookup_insert_eq. now rewrite !length_insert.
    + rewrite !list_lookup_insert_ne by congruence.
      now apply list_lookup_insert_eq.
    + rewrite list_lookup_insert_ne by congruence.
      apply list_lookup_insert_eq. now rewrite length_insert.
Qed.

Lemma X10_combine_appends_to_receiver_witness :
  exists h',
    combine 0%nat 1%nat "+" 2%nat
      [Build "x" true false false (Some 1); Build ".l" false false false (Some 100);
       Build "#r" false true false (Some 10)] = (h', Return 0%nat) /\
    h' !! 0%nat =
      Some (set_string ("x" +:+ ".l" +:+ " " +:+ "+" +:+ " " +:+ "#r")
              (Build "x" true false false (Some 1))) /\
    h' !! 1%nat = Some (set_string "" (Build ".l" false false false (Some 100))) /\
    h' !! 2%nat = Some (set_string "" (Build "#r" false true false (Some 10))).
Proof.
  apply (X10_combine_appends_to_receiver 0%nat 1%nat 2%nat "+"
           [Build "x" true false false (Some 1);
            Build ".l" false false false (Some 100);
            Build "#r" false true false (Some 10)]
           (Build "x" true false false (Some 1))
           (Build ".l" false false false (Some 100))
           (Build "#r" false true false (Some 10)));
    first [reflexivity | lia].
Defined.

Lemma wellFormed_constructor : wellFormed constructor.
Proof.
  split; [now left|]. split.
  - intros c Hc. destruct c; discriminate.
  - intros c _ Hw. discriminate.
Qed.

Lemma wellFormed_set_string s o : wellFormed o -> wellFormed (set_string s o).
Proof.
  intros (Hw & Hflag & Hsing). split; [exact Hw|]. split.
  - intros c Hc. apply Hflag. now destruct c.
  - intros c Hc Hwc. specialize (Hsing c Hc Hwc). now destruct c.
Qed.

Lemma wellFormed_appended c value selector o :
  wellFormed o -> toNumber (weight o) <= rank c ->
  wellFormed (appended c value selector o).
Proof.
  intros (_ & Hflag & _) Hle. split; [right; now exists c|]. split.
  - intros c' Hc'. cbn [weight appended toNumber].
    apply isSet_appended_inv in Hc' as [[-> _]|Hc']; [lia|].
    specialize (Hflag c' Hc'). lia.
  - intros c' Hc' Hw. cbn [weight appended] in Hw. injection Hw as Hw.
    apply rank_inj in Hw as ->. now apply isSet_appended.
Qed.

Lemma wellFormed_append c this value selector (h : heap) :
  Forall wellFormed h -> Forall wellFormed (fst (append c this value selector h)).
Proof.
  intros Hall. rewrite append_eq. destruct (h !! this) as [o|] eqn:H; [|exact Hall].
  destruct (isSet c o); [exact Hall|].
  destruct (rank c <? toNumber (weight o)) eqn:Hw; [exact Hall|].
  apply Z.ltb_ge in Hw. cbn [fst]. apply Forall_insert; [exact Hall|].
  apply wellFormed_appended; [|exact Hw]. eapply Forall_lookup_1; eauto.
Qed.

Lemma wellFormed_stringify this (h : heap) :
  Forall wellFormed h -> Forall wellFormed (fst (stringify this h)).
Proof.
  intros Hall. rewrite stringify_eq. destruct (h !! this) as [o|] eqn:H; [|exact Hall].
  cbn [fst]. apply Forall_insert; [exact Hall|].
  apply wellFormed_set_string. eapply Forall_lookup_1; eauto.
Qed.

Lemma wellFormed_setValue this value selector (h : heap) :
  Forall wellFormed h -> Forall wellFormed (fst (setValue this value selector h)).
Proof.
  intros Hall. destruct (h !! this) as [o|] eqn:H.
  - rewrite (setValue_eq _ _ _ _ _ H). cbn [fst].
    apply Forall_insert; [exact Hall|].
    apply wellFormed_set_string. eapply Forall_lookup_1; eauto.
  - now rewrite (setValue_None _ _ _ _ H).
Qed.

Lemma wellFormed_combine this s1 combinator s2 (h : heap) :
  Forall wellFormed h -> Forall wellFormed (fst (combine this s1 combinator s2 h)).
Proof.
  intros Hall. unfold combine, bind, ret.
  pose proof (wellFormed_stringify s1 h Hall) as W1.
  destruct (stringify s1 h) as [h1 [v1|e]]; [|exact W1].
  pose proof (wellFormed_stringify s2 h1 W1) as W2.
  destruct (stringify s2 h1) as [h2 [v2|e]]; [|exact W2].
  pose proof (wellFormed_setValue this
                (v1 +:+ " " +:+ combinator +:+ " " +:+ v2) "" h2 W2) as W3.
  destruct (setValue _ _ _ h2) as [h3 [[]|e]]; exact W3.
Qed.

Lemma wellFormed_run ks : forall h : heap,
  Forall wellFormed h -> Forall wellFormed (run ks h).
Proof.
  induction ks as [|k ks IH]; intros h Hall; [exact Hall|].
  cbn. apply IH. destruct k; cbn [exec].
  - cbn [fst new]. apply Forall_app. split; [exact Hall|].
    apply Forall_cons. split; [apply wellFormed_constructor | constructor].
  - now apply wellFormed_append.
  - now apply wellFormed_combine.
  - now apply wellFormed_stringify.
Qed.

(** X11: in a store built from the empty one by any calls of [new], the
    append methods, [combine] and [stringify], on any references and
    whether they returned or threw, every instance is well formed: its
    weight is [null] or one of the six weights the methods pass; each flag
    that is set belongs to a kind whose weight the stored weight has
    reached, so an instance with weight [null] has no flag set; and a
    stored weight of element, id or pseudo-element comes with the flag of
    that kind. *)
Theorem X11_reachable_wellFormed ks (x : loc) o :
  run ks [] !! x = Some o ->
  wellFormed o /\
  (weight o = None ->
   existsElement o = false /\ existsId o = false /\ existsPseudoElement o = false).
Proof.
  intros Hx.
  assert (W : wellFormed o).
  { eapply Forall_lookup_1; [|exact Hx]. apply wellFormed_run. constructor. }
  split; [exact W|]. intros Hnull. destruct W as (_ & Hflag & _).
  rewrite Hnull in Hflag. cbn [toNumber] in Hflag.
  pose proof (Hflag Element) as HE. pose proof (Hflag Id) as HI.
  pose proof (Hflag PseudoElement) as HP. cbn [isSet rank] in HE, HI, HP.
  destruct (existsElement o); [specialize (HE eq_refl); lia|].
  destruct (existsId o); [specialize (HI eq_refl); lia|].
  destruct (existsPseudoElement o); [specialize (HP eq_refl); lia|].
  auto.
Qed.

Lemma X11_reachable_wellFormed_witness :
  wellFormed (Build ".x" true true false (Some 100)) /\
  (weight (Build ".x" true true false (Some 100)) = None ->
   existsElement (Build ".x" true true false (Some 100)) = false /\
   existsId (Build ".x" true true false (Some 100)) = false /\
   existsPseudoElement (Build ".x" true true false (Some 100)) = false).
Proof.
  apply (X11_reachable_wellFormed
           [New; Append Element 0%nat "div" None; Append Id 0%nat "main" None;
            New; Combine 1%nat 0%nat ">" 0%nat; Append Class 0%nat "x" None;
            Append Element 0%nat "y" None] 0%nat).
  reflexivity.
Defined.

Lemma length_append c this value selector (h : heap) :
  List.length (fst (append c this value selector h)) = List.length h.
Proof.
  rewrite append_eq. destruct (h !! this) as [o|]; [|reflexivity].
  destruct (isSet c o); [reflexivity|].
  destruct (rank c <? toNumber (weight o)); [reflexivity|].
  apply length_insert.
Qed.

Lemma length_stringify this (h : heap) :
  List.length (fst (stringify this h)) = List.length h.
Proof.
  rewrite stringify_eq. destruct (h !! this); [apply length_insert | reflexivity].
Qed.

Lemma length_setValue this value selector (h : heap) :
  List.length (fst (setValue this value selector h)) = List.length h.
Proof.
  destruct (h !! this) as [o|] eqn:H.
  - rewrite (setValue_eq _ _ _ _ _ H). apply length_insert.
  - now rewrite (setValue_None _ _ _ _ H).
Qed.

Lemma length_combine this s1 combinator s2 (h : heap) :
  List.length (fst (combine this s1 combinator s2 h)) = List.length h.
Proof.
  unfold combine, bind, ret.
  pose proof (length_stringify s1 h) as L1.
  destruct (stringify s1 h) as [h1 [v1|e]]; [|exact L1].
  pose proof (length_stringify s2 h1) as L2.
  destruct (stringify s2 h1) as [h2 [v2|e]]; cbn [fst] in *; [|lia].
  pose proof (length_setValue this
                (v1 +:+ " " +:+ combinator +:+ " " +:+ v2) "" h2) as L3.
  destruct (setValue _ _ _ h2) as [h3 [[]|e]]; cbn [fst] in *; lia.
Qed.

(** X12: no method of the class creates or removes an instance: after any
    calls the store holds the instances it held plus one for each [new],
    and every reference that named an instance still names one. *)
Theorem X12_only_new_allocates ks (h : heap) :
  List.length (run ks h) =
    (List.length h + List.length (List.filter isNew ks))%nat /\
  (forall x : loc, is_Some (h !! x) -> is_Some (run ks h !! x)).
Proof.
  split.
  - revert h. induction ks as [|k ks IH]; intros h; [cbn; lia|].
    cbn [run fold_left]. fold (run ks (exec k h)). rewrite IH.
    destruct k; cbn [exec isNew List.filter List.length].
    + cbn [fst new]. rewrite length_app. cbn. lia.
    + rewrite length_append. lia.
    + rewrite length_combine. lia.
    + rewrite length_stringify. lia.
  - intros x [o Hx]. destruct (grows_run ks h x o Hx) as (o' & Hx' & _). eauto.
Qed.

Lemma X12_only_new_allocates_witness :
  List.length (run [Append Id 0%nat "a" None; New; Stringify 0%nat; New]
                 store_div_table) =
    (List.length store_div_table +
     List.length (List.filter isNew
                    [Append Id 0%nat "a" None; New; Stringify 0%nat; New]))%nat /\
  is_Some (run [Append Id 0%nat "a" None; New; Stringify 0%nat; New]
             store_div_table !! 1%nat).
Proof.
  split.
  - apply (proj1 (X12_only_new_allocates _ _)).
  - apply (proj2 (X12_only_new_allocates _ _)). eexists. reflexivity.
Defined.

(** X13: [stringify] gives no new start: an append after it returns, or
    throws the same error, exactly as it would have without it, because the
    flags and the weight survive the draining of the text. *)
Theorem X13_stringify_keeps_rules c (this : loc) value selector (h : heap) :
  snd (append c this value selector (fst (stringify this h))) =
  snd (append c this value selector h).
Proof.
  rewrite stringify_eq, !append_eq. destruct (h !! this) as [o|] eqn:H.
  - cbn [fst]. erewrite lookup_put by exact H.
    replace (isSet c (set_string "" o)) with (isSet c o) by now destruct c.
    cbn [weight set_string].
    destruct (isSet c o); [reflexivity|].
    destruct (rank c <? toNumber (weight o)); reflexivity.
  - cbn [fst]. now rewrite H.
Qed.

(** ** The rectangle *)

Lemma lookup_last {A} (s : list A) (x : A) :
  (s ++ [x])%list !! List.length s = Some x.
Proof. now rewrite list_lookup_middle. Qed.

(** X14: [getArea] multiplies the width and the height its rectangle has
    when it is called, not those it was made with: after an assignment to
    the width of a rectangle its area is the new width times the height,
    and the area of a rectangle made by another call of [Rectangle] is what
    it was. *)
Theorem X14_getArea_reads_current_fields {num : Type} (mul : num -> num -> num)
    (w h w' h' v : num) (s : list (Shapes.rectangle num)) :
  snd ((r <- Shapes.Rectangle w h ;; Shapes.getArea mul r) s) =
    Return (mul w h) /\
  snd ((r <- Shapes.Rectangle w h ;;
        q <- Shapes.Rectangle w' h' ;;
        Shapes.assign r (Shapes.set_width v) ;;;
        a <- Shapes.getArea mul r ;;
        b <- Shapes.getArea mul q ;;
        ret (a, b)) s) = Return (mul v h, mul w' h').
Proof.
  assert (L : (List.length s <
               List.length (s ++ [Shapes.Build_rectangle num w h]))%nat)
    by (rewrite length_app; cbn; lia).
  split;
    unfold bind, Shapes.Rectangle, Shapes.getArea, Shapes.assign, Shapes.read,
      bind, ret;
    repeat first
      [ rewrite lookup_last
      | rewrite (lookup_app_l _ _ _ L)
      | rewrite list_lookup_insert_eq by (rewrite length_app; lia)
      | rewrite list_lookup_insert_ne by lia
      | progress cbv beta iota ];
    reflexivity.
Qed.
